(** * liora-lib [fetch.cpp]: header accumulator, multipart encoder and
    transfer sinks, embedded in Rocq.

    [std::string] is [string] (a sequence of 8-bit characters),
    [std::vector<unsigned char>] is [list byte],
    [std::map<std::string, std::vector<std::string>>] is
    [gmap string (list string)], [size_t] and [long long] are [Z] with the
    wrap-around of the 64-bit arithmetic written out where the source
    computes with them. *)

From Stdlib Require Import ZArith NArith Lia.
From Stdlib.Strings Require Import Ascii Byte HexString.
From stdpp Require Import base option list strings pretty gmap fin_maps sorting.

Local Open Scope Z_scope.

(** ** Characters and strings *)

Definition CR : ascii := "013"%char.
Definition LF : ascii := "010"%char.
Definition CRLF : string := String CR (String LF EmptyString).
Definition DQUOTE : string := String "034"%char EmptyString.

(** [std::isspace] in the "C" locale: space, and the controls 9 to 13. *)
Definition isspace (c : ascii) : bool :=
  let n := N_of_ascii c in
  ((n =? 32) || ((9 <=? n) && (n <=? 13)))%N.

Definition isupper (c : ascii) : bool :=
  let n := N_of_ascii c in ((65 <=? n) && (n <=? 90))%N.

Definition isdigit (c : ascii) : bool :=
  let n := N_of_ascii c in ((48 <=? n) && (n <=? 57))%N.

(** [std::tolower] in the "C" locale. *)
Definition tolower (c : ascii) : ascii :=
  if isupper c then ascii_of_N (N_of_ascii c + 32) else c.

Fixpoint string_map (f : ascii → ascii) (s : string) : string :=
  match s with
  | EmptyString => EmptyString
  | String c s' => String (f c) (string_map f s')
  end.

(** [lower]: [std::transform] with [std::tolower] over the whole string. *)
Definition lower (s : string) : string := string_map tolower s.

Definition string_empty (s : string) : bool :=
  match s with EmptyString => true | String _ _ => false end.

(** Drop the longest prefix whose characters satisfy [p]. *)
Fixpoint drop_while (p : ascii → bool) (s : string) : string :=
  match s with
  | EmptyString => EmptyString
  | String c s' => if p c then drop_while p s' else s
  end.

(** The longest prefix whose characters satisfy [p]. *)
Fixpoint take_while (p : ascii → bool) (s : string) : string :=
  match s with
  | EmptyString => EmptyString
  | String c s' => if p c then String c (take_while p s') else EmptyString
  end.

(** Drop the longest suffix whose characters satisfy [p]: the loop
    [while (!s.empty() && p(s.back())) s.pop_back()]. *)
Fixpoint drop_while_end (p : ascii → bool) (s : string) : string :=
  match s with
  | EmptyString => EmptyString
  | String c s' =>
      let r := drop_while_end p s' in
      if string_empty r && p c then EmptyString else String c r
  end.

(** [trim]: index [a] moves right over leading white space, then index [b]
    moves left over trailing white space, and [s.substr(a, b-a)] is kept. *)
Definition trim (s : string) : string :=
  drop_while_end isspace (drop_while isspace s).

(** [s.find(c)]: position of the first [c], [None] for [npos]. *)
Fixpoint find_char (c : ascii) (s : string) : option nat :=
  match s with
  | EmptyString => None
  | String a s' =>
      if Ascii.eqb a c then Some O else S <$> find_char c s'
  end.

(** [s.substr(pos, n)] and [s.substr(pos)], for [pos <= s.size()]. *)
Definition substr (s : string) (pos n : nat) : string := String.substring pos n s.
Definition substr_from (s : string) (pos : nat) : string :=
  String.substring pos (String.length s - pos) s.

(** [line.rfind(p, 0) == 0]: [line] starts with [p]. *)
Definition starts_with (p line : string) : bool := String.prefix p line.

(** [s.c_str()] read as a C string: the characters before the first NUL.
    This is what reaches every callee that takes a [const char*], among them
    [Napi::Object::Get] and [Set] called with a [std::string]. *)
Definition NUL : ascii := "000"%char.
Definition c_str (s : string) : string :=
  take_while (λ c, negb (Ascii.eqb c NUL)) s.

(** ** Reading the status line through [std::istringstream]

    The stream is the text not yet read, or [None] once a read has set
    [eofbit] or [failbit] (after which every extraction is a no-op). *)

Definition LONG_MAX : Z := 2 ^ 63 - 1.
Definition LONG_MIN : Z := - 2 ^ 63.

Definition stream := option string.

Definition stream_of (s : string) : stream :=
  if string_empty s then None else Some s.

(** [iss >> word]: skip white space, read up to the next white space. *)
Definition extract_word (st : stream) : string * stream :=
  match st with
  | None => (EmptyString, None)
  | Some s =>
      let s1 := drop_while isspace s in
      (take_while (λ c, negb (isspace c)) s1,
       stream_of (drop_while (λ c, negb (isspace c)) s1))
  end.

Definition digit_value (c : ascii) : Z := Z.of_N (N_of_ascii c) - 48.

Fixpoint decimal_value (acc : Z) (s : string) : Z :=
  match s with
  | EmptyString => acc
  | String c s' => decimal_value (10 * acc + digit_value c) s'
  end.

(** [iss >> v] for [long v]: when the stream is unusable or holds only white
    space the variable keeps its value [old]; without a digit it becomes 0;
    a value out of range is clamped; in those cases, and when the digits run
    to the end of the text, the stream is left unusable. *)
Definition extract_long (old : Z) (st : stream) : Z * stream :=
  match st with
  | None => (old, None)
  | Some s =>
      let s1 := drop_while isspace s in
      if string_empty s1 then (old, None) else
      let '(neg, s2) :=
        match s1 with
        | String "-" r => (true, r)
        | String "+" r => (false, r)
        | _ => (false, s1)
        end in
      let ds := take_while isdigit s2 in
      let s3 := drop_while isdigit s2 in
      if string_empty ds then (0, None) else
      let v := if neg then - decimal_value 0 ds else decimal_value 0 ds in
      if v >? LONG_MAX then (LONG_MAX, None)
      else if v <? LONG_MIN then (LONG_MIN, None)
      else (v, stream_of s3)
  end.

(** [std::getline(iss, rest)] into an empty [rest]: the text up to the first
    line feed, nothing when the stream is unusable. *)
Definition getline (st : stream) : string :=
  match st with
  | None => EmptyString
  | Some s => take_while (λ c, negb (Ascii.eqb c LF)) s
  end.

(** ** ResponseData *)

Record ResponseData := mkResponseData {
  body : list byte;
  headers : gmap string (list string);
  status : Z;
  url : string;
  statusText : string;
}.

Definition ResponseData_init : ResponseData :=
  {| body := []; headers := ∅; status := 0;
     url := EmptyString; statusText := EmptyString |}.

Definition resetHop (r : ResponseData) : ResponseData :=
  {| body := body r; headers := ∅; status := status r;
     url := url r; statusText := statusText r |}.

Definition is_crlf (c : ascii) : bool := Ascii.eqb c CR || Ascii.eqb c LF.

(** The line with its trailing CR and LF characters popped. *)
Definition chomp (line : string) : string := drop_while_end is_crlf line.

(** [headers[key].push_back(val)] *)
Definition push_header (key val : string) (m : gmap string (list string))
  : gmap string (list string) :=
  <[key := default [] (m !! key) ++ [val]]> m.

Definition addHeaderLine (r : ResponseData) (raw : string) : ResponseData :=
  let line := chomp raw in
  if string_empty line then r else
  if starts_with "HTTP/" line then
    let r1 := resetHop r in
    let '(proto, iss1) := extract_word (stream_of line) in
    let '(st, iss2) := extract_long (status r1) iss1 in
    let rest := getline iss2 in
    {| body := body r1; headers := headers r1; status := st;
       url := url r1; statusText := trim rest |}
  else
    match find_char ":" line with
    | None => r
    | Some pos =>
        let key := lower (trim (substr line 0 pos)) in
        let val := trim (substr_from line (pos + 1)) in
        if negb (string_empty key) then
          {| body := body r; headers := push_header key val (headers r);
             status := status r; url := url r; statusText := statusText r |}
        else r
    end.

(** The header sink's effect on the response over a sequence of lines. *)
Definition addHeaderLines (r : ResponseData) (lines : list string) : ResponseData :=
  fold_left addHeaderLine lines r.

(** ** Values received from the JavaScript caller

    What the source asks of a [Napi::Value]: whether it is a buffer (and its
    bytes), whether it is an object or a function (and its properties, in
    enumeration order), and its conversion to text. *)

#[warnings="-register-all"]
Inductive Value :=
| VUndefined
| VPrimitive (text : string)
| VBuffer (data : list byte)
| VObject (callable : bool) (props : list (string * Value)).

Definition Object := list (string * Value).

Definition IsBuffer (v : Value) : bool :=
  match v with VBuffer _ => true | _ => false end.
Definition IsObject (v : Value) : bool :=
  match v with VBuffer _ | VObject _ _ => true | _ => false end.
Definition IsFunction (v : Value) : bool :=
  match v with VObject c _ => c | _ => false end.

Fixpoint lookup_prop (o : Object) (k : string) : option Value :=
  match o with
  | [] => None
  | (k', v) :: o' => if String.eqb k' k then Some v else lookup_prop o' k
  end.

Definition Has (o : Object) (k : string) : bool :=
  match lookup_prop o k with Some _ => true | None => false end.
Definition Get (o : Object) (k : string) : Value :=
  default VUndefined (lookup_prop o k).
Definition GetPropertyNames (o : Object) : list string := o.*1.

(** [v.As<Napi::Object>()] for an object that is no buffer. *)
Definition AsObject (v : Value) : Object :=
  match v with VObject _ ps => ps | _ => [] end.
(** [v.As<Napi::Buffer<uint8_t>>()]: [Data()] and [Length()] together. *)
Definition AsBuffer (v : Value) : list byte :=
  match v with VBuffer d => d | _ => [] end.

(** ** Multipart encoder *)

Definition vecAppend (dst : list byte) (s : string) : list byte :=
  dst ++ String.list_byte_of_string s.
Definition vecAppendRaw (dst : list byte) (p : list byte) : list byte :=
  dst ++ p.

(** [oss << std::hex << x]: lower-case digits, no prefix, no padding. *)
Definition hex (x : N) : string :=
  match x with
  | N0 => "0"
  | Npos p => HexString.Raw.of_pos p EmptyString
  end.

(** [randomBoundary], from the three 64-bit draws of the generator. *)
Definition randomBoundary (draws : N * N * N) : string :=
  let '(d1, d2, d3) := draws in
  "----LioraFormBoundary" +:+ hex d1 +:+ hex d2 +:+ hex d3.

(** [dataPtr && dataLen], for a data pointer that is null ([None]) or the
    start of a buffer of the given bytes. *)
Definition has_bytes (data : option (list byte)) : bool :=
  match data with
  | Some (_ :: _) => true
  | _ => false
  end.

Section Multipart.

(** [v.ToString().Utf8Value()], the runtime's conversion to text. *)
Variable Utf8Value : Value → string.

(** The lambda [flushDataPart] with the locals it captures. *)
Definition flushDataPart (name filename contentType : string)
    (data : option (list byte)) (textVal : string)
    (isFile : bool) (outBody : list byte) : list byte :=
  let head := "Content-Disposition: form-data; name=" +:+ DQUOTE +:+ name +:+ DQUOTE in
  if isFile then
    let filename := if string_empty filename then "blob" else filename in
    let head := head +:+ "; filename=" +:+ DQUOTE +:+ filename +:+ DQUOTE +:+ CRLF in
    let contentType :=
      if string_empty contentType then "application/octet-stream" else contentType in
    let head := head +:+ "Content-Type: " +:+ contentType +:+ CRLF +:+ CRLF in
    let outBody := vecAppend outBody head in
    let outBody :=
      if has_bytes data then vecAppendRaw outBody (default [] data) else outBody in
    vecAppend outBody CRLF
  else
    let head := head +:+ CRLF +:+ CRLF in
    let outBody := vecAppend outBody head in
    let outBody := vecAppend outBody textVal in
    vecAppend outBody CRLF.

(** What one iteration of the loop appends after the delimiter line. *)
Definition emitField (name : string) (v : Value) (outBody : list byte) : list byte :=
  if IsBuffer v then
    flushDataPart name EmptyString EmptyString (Some (AsBuffer v)) EmptyString true outBody
  else if IsObject v then
    let o := AsObject v in
    let '(data, textVal) :=
      if Has o "value" && IsBuffer (Get o "value") then
        (Some (AsBuffer (Get o "value")), EmptyString)
      else if Has o "data" && IsBuffer (Get o "data") then
        (Some (AsBuffer (Get o "data")), EmptyString)
      else if Has o "buffer" && IsBuffer (Get o "buffer") then
        (Some (AsBuffer (Get o "buffer")), EmptyString)
      else if Has o "value" then
        (None, Utf8Value (Get o "value"))
      else
        (None, Utf8Value v) in
    let filename :=
      if Has o "filename" then Utf8Value (Get o "filename") else EmptyString in
    let contentType :=
      if Has o "contentType" then Utf8Value (Get o "contentType") else EmptyString in
    if has_bytes data then flushDataPart name filename contentType data textVal true outBody
    else flushDataPart name filename contentType data textVal false outBody
  else
    flushDataPart name EmptyString EmptyString None (Utf8Value v) false outBody.

(** One iteration of the loop over the property names. *)
Definition multipartStep (formObj : Object) (outBoundary : string)
    (outBody : list byte) (name : string) : list byte :=
  let v := Get formObj (c_str name) in
  let outBody := vecAppend outBody ("--" +:+ outBoundary +:+ CRLF) in
  emitField name v outBody.

(** [buildMultipartFromNapi]: returns the body and the boundary it drew. *)
Definition buildMultipartFromNapi (formObj : Object) (outBody : list byte)
    (draws : N * N * N) : list byte * string :=
  let outBoundary := randomBoundary draws in
  let keys := GetPropertyNames formObj in
  let outBody := fold_left (multipartStep formObj outBoundary) keys outBody in
  (vecAppend outBody ("--" +:+ outBoundary +:+ "--" +:+ CRLF), outBoundary).

End Multipart.

(** ** FetchWorker *)

(** The request, fixed by the constructor. [tsfnData_] and [tsfnProg_] say
    whether the thread-safe function was created. *)
Record Request := mkRequest {
  url_ : string;
  method_ : string;
  timeoutMs_ : Z;
  maxRedirects_ : Z;
  insecureTLS_ : bool;
  decompress_ : bool;
  ipResolve_ : string;
  cookieFile_ : string;
  cookieString_ : string;
  maxBodySize_ : Z;
  haveUserUA_ : bool;
  haveAcceptEnc_ : bool;
  haveConn_ : bool;
  haveExpect_ : bool;
  haveContentType_ : bool;
  streaming_ : bool;
  wantProgress_ : bool;
  headersKVs_ : list string;
  body_ : list byte;
  useMultipart_ : bool;
  multipartBody_ : list byte;
  multipartBoundary_ : string;
  tsfnData_ : bool;
  tsfnProg_ : bool;
}.

(** One progress report: dltotal, dlnow, ultotal, ulnow. *)
Record Progress := mkProgress { dltotal : Z; dlnow : Z; ultotal : Z; ulnow : Z }.

(** [(double)x] for a 64-bit integer [x], written as the integer that the
    double is: [x] itself up to 2^53 in magnitude, otherwise [x] rounded to
    53 significant bits, to the nearest and to the even one on a tie. *)
Definition to_double (x : Z) : Z :=
  let a := Z.abs x in
  if a <=? 2 ^ 53 then x else
  let e := Z.log2 a - 52 in
  let q := a / 2 ^ e in
  let r := a mod 2 ^ e in
  let half := 2 ^ (e - 1) in
  let q := if (r <? half) || ((r =? half) && Z.even q) then q else q + 1 in
  Z.sgn x * (q * 2 ^ e).

(** The aggregate [Agg] built from a report: each counter cast to double. *)
Definition Agg (p : Progress) : Progress :=
  {| dltotal := to_double (dltotal p); dlnow := to_double (dlnow p);
     ultotal := to_double (ultotal p); ulnow := to_double (ulnow p) |}.

(** The worker: the request and what the transfer mutates. [dataCalls] and
    [progCalls] are the calls queued on the two thread-safe functions, oldest
    first: the chunk of a data call, the four doubles of a progress call. *)
Record FetchWorker := mkFetchWorker {
  req : Request;
  resp_ : ResponseData;
  abort_ : bool;
  downloaded_ : Z;
  dataCalls : list (list byte);
  progCalls : list Progress;
}.

Definition set_resp (w : FetchWorker) (r : ResponseData) : FetchWorker :=
  {| req := req w; resp_ := r; abort_ := abort_ w; downloaded_ := downloaded_ w;
     dataCalls := dataCalls w; progCalls := progCalls w |}.
Definition set_abort (w : FetchWorker) (b : bool) : FetchWorker :=
  {| req := req w; resp_ := resp_ w; abort_ := b; downloaded_ := downloaded_ w;
     dataCalls := dataCalls w; progCalls := progCalls w |}.
Definition set_downloaded (w : FetchWorker) (n : Z) : FetchWorker :=
  {| req := req w; resp_ := resp_ w; abort_ := abort_ w; downloaded_ := n;
     dataCalls := dataCalls w; progCalls := progCalls w |}.
Definition push_dataCall (w : FetchWorker) (chunk : list byte) : FetchWorker :=
  {| req := req w; resp_ := resp_ w; abort_ := abort_ w; downloaded_ := downloaded_ w;
     dataCalls := dataCalls w ++ [chunk]; progCalls := progCalls w |}.
Definition push_progCall (w : FetchWorker) (p : Progress) : FetchWorker :=
  {| req := req w; resp_ := resp_ w; abort_ := abort_ w; downloaded_ := downloaded_ w;
     dataCalls := dataCalls w; progCalls := progCalls w ++ [p] |}.
Definition set_body (r : ResponseData) (b : list byte) : ResponseData :=
  {| body := b; headers := headers r; status := status r;
     url := url r; statusText := statusText r |}.

Section Constructor.

(** The runtime's conversions of a value: to text, to a number read as a
    32-bit or a 64-bit integer, to a boolean. *)
Variable Utf8Value : Value → string.
Variable Int32Value : Value → Z.
Variable Int64Value : Value → Z.
Variable BooleanValue : Value → bool.

(** The properties the runtime shows for a buffer taken as an object: its
    indices and what it inherits, in enumeration order. *)
Variable BufferObject : list byte → Object.

(** [v.As<Napi::Object>()] for any value that [IsObject] accepts. *)
Definition ObjectOf (v : Value) : Object :=
  match v with
  | VBuffer d => BufferObject d
  | _ => AsObject v
  end.

Definition getString (o : Object) (k def : string) : string :=
  if Has o k then Utf8Value (Get o k) else def.
Definition getInt (o : Object) (k : string) (def : Z) : Z :=
  if Has o k then Int32Value (Get o k) else def.
Definition getInt64 (o : Object) (k : string) (def : Z) : Z :=
  if Has o k then Int64Value (Get o k) else def.
Definition getBool (o : Object) (k : string) (def : bool) : bool :=
  if Has o k then BooleanValue (Get o k) else def.

(** The loop filling [headersKVs_]. *)
Definition headerKVs (h : Object) : list string :=
  flat_map (λ k, let v := Utf8Value (Get h (c_str k)) in
                 if negb (string_empty k) then [k +:+ ": " +:+ v] else [])
           (GetPropertyNames h).

(** The constructor. [draws] are the random numbers [randomBoundary] gets
    when a multipart body is built. *)
Definition FetchWorker_new (url : string) (opts : Object) (draws : N * N * N)
  : FetchWorker :=
  let have_h := Has opts "headers" && IsObject (Get opts "headers") in
  let h := ObjectOf (Get opts "headers") in
  let body0 :=
    if Has opts "body" then
      let v := Get opts "body" in
      if IsBuffer v then AsBuffer v else String.list_byte_of_string (Utf8Value v)
    else [] in
  let have_form := Has opts "formData" && IsObject (Get opts "formData") in
  let mp := buildMultipartFromNapi Utf8Value (ObjectOf (Get opts "formData")) [] draws in
  let have_data := Has opts "onData" && IsFunction (Get opts "onData") in
  let have_prog := Has opts "onProgress" && IsFunction (Get opts "onProgress") in
  {| req := {|
       url_ := url;
       method_ := getString opts "method" "GET";
       timeoutMs_ := getInt opts "timeout" 300000;
       maxRedirects_ := getInt opts "maxRedirects" 20;
       insecureTLS_ := getBool opts "insecure" false;
       decompress_ := getBool opts "decompress" true;
       ipResolve_ := getString opts "ipResolve" "auto";
       cookieFile_ := getString opts "cookieFile" EmptyString;
       cookieString_ := getString opts "cookie" EmptyString;
       maxBodySize_ := getInt64 opts "maxBodySize" (-1);
       haveUserUA_ := have_h && (Has h "User-Agent" || Has h "user-agent");
       haveAcceptEnc_ := have_h && (Has h "Accept-Encoding" || Has h "accept-encoding");
       haveConn_ := have_h && (Has h "Connection" || Has h "connection");
       haveExpect_ := have_h && (Has h "Expect" || Has h "expect");
       haveContentType_ := have_h && (Has h "Content-Type" || Has h "content-type");
       streaming_ := have_data;
       wantProgress_ := have_prog;
       headersKVs_ := if have_h then headerKVs h else [];
       body_ := if have_form then [] else body0;
       useMultipart_ := have_form;
       multipartBody_ := if have_form then mp.1 else [];
       multipartBoundary_ := if have_form then mp.2 else EmptyString;
       tsfnData_ := have_data;
       tsfnProg_ := have_prog |};
     resp_ := ResponseData_init;
     abort_ := false;
     downloaded_ := 0;
     dataCalls := [];
     progCalls := [] |}.

End Constructor.

(** The default headers [Execute] appends to its list, in order. *)
Definition UA_DEFAULT : string := "User-Agent: undici/6 naruyaizumi".
Definition AE_DEFAULT : string := "Accept-Encoding: br, gzip, deflate".
Definition CONN_DEFAULT : string := "Connection: keep-alive".
Definition EXPECT_DEFAULT : string := "Expect:".

Definition defaultHeaders (r : Request) : list string :=
  (if negb (haveUserUA_ r) then [UA_DEFAULT] else []) ++
  (if negb (haveAcceptEnc_ r) && decompress_ r then [AE_DEFAULT] else []) ++
  (if negb (haveConn_ r) then [CONN_DEFAULT] else []) ++
  (if negb (haveExpect_ r) then [EXPECT_DEFAULT] else []).

Definition multipartHeader (r : Request) : list string :=
  if useMultipart_ r && negb (haveContentType_ r)
  then ["Content-Type: multipart/form-data; boundary=" +:+ multipartBoundary_ r]
  else [].

(** The list [hdrs] handed to the transport as CURLOPT_HTTPHEADER. The
    defaults are appended as literals; the multipart line and the caller's
    lines go through [c_str()]. *)
Definition requestHeaders (r : Request) : list string :=
  defaultHeaders r ++ (c_str <$> multipartHeader r) ++ (c_str <$> headersKVs_ r).

(** ** The sinks *)

Definition wrap_size_t (z : Z) : Z := z mod 2 ^ 64.

(** [static_cast<long long>] of a [size_t]. *)
Definition to_long_long (z : Z) : Z :=
  if z <? 2 ^ 63 then z else z - 2 ^ 64.

(** [std::vector<unsigned char>::max_size()] of the 64-bit target. *)
Definition vector_max_size : Z := 2 ^ 63 - 1.

Definition size (l : list byte) : Z := Z.of_nat (length l).

(** [v.insert(v.end(), p, p + n)]: [None] stands for the exception thrown when
    the new size passes [max_size()] or when the allocation fails ([alloc_ok]
    false); the vector is then unchanged. *)
Definition vector_insert_end (v p : list byte) (alloc_ok : bool) : option (list byte) :=
  if alloc_ok && (size v + size p <=? vector_max_size) then Some (v ++ p) else None.

(** [writeBody]: [chunk] is the [n = size * nmemb] bytes at [ptr]; [ok] says
    that nothing throws inside the [try] blocks. Returns the worker and the
    value handed back to the transport. *)
Definition writeBody (w : FetchWorker) (chunk : list byte) (ok : bool)
  : FetchWorker * Z :=
  if abort_ w then (w, 0) else
  let n := size chunk in
  if streaming_ (req w) && tsfnData_ (req w) then
    if ok then
      let w := push_dataCall w chunk in
      (set_downloaded w (wrap_size_t (downloaded_ w + n)), n)
    else (w, 0)
  else
  if (maxBodySize_ (req w) >=? 0) &&
     (to_long_long (wrap_size_t (size (body (resp_ w)) + n)) >? maxBodySize_ (req w))
  then (w, 0) else
  match vector_insert_end (body (resp_ w)) chunk ok with
  | Some b =>
      let w := set_resp w (set_body (resp_ w) b) in
      (set_downloaded w (wrap_size_t (downloaded_ w + n)), n)
  | None => (w, 0)
  end.

(** [writeHeader]: [buffer] is the [n = size * nitems] bytes of the line. *)
Definition writeHeader (w : FetchWorker) (buffer : string) : FetchWorker * Z :=
  let n := Z.of_nat (String.length buffer) in
  (set_resp w (addHeaderLine (resp_ w) buffer), n).

(** [onProgress]: [ok] says that queueing the call does not throw. *)
Definition onProgress (w : FetchWorker) (p : Progress) (ok : bool) : FetchWorker * Z :=
  if abort_ w then (w, 1) else
  if wantProgress_ (req w) && tsfnProg_ (req w) then
    ((if ok then push_progCall w (Agg p) else w), 0)
  else (w, 0).

(** The function returned by [makeAbort]. *)
Definition abort (w : FetchWorker) : FetchWorker := set_abort w true.

(** ** The transport

    [curl_easy_perform] is seen through its callback contract: it calls the
    header sink with each line and the body sink with each chunk, and the
    progress sink only when CURLOPT_NOPROGRESS is 0; a write sink that
    returns another count than it was given stops the transfer with
    CURLE_WRITE_ERROR, a progress sink that returns non-zero stops it with
    CURLE_ABORTED_BY_CALLBACK. The caller's thread may call the abort
    function between any two of these calls, and after the last. *)

Inductive event :=
| EvAbort
| EvHeader (line : string)
| EvBody (chunk : list byte) (ok : bool)
| EvProgress (p : Progress) (ok : bool).

Definition CURLE_OK : Z := 0.
Definition CURLE_WRITE_ERROR : Z := 23.
Definition CURLE_ABORTED_BY_CALLBACK : Z := 42.

Definition is_abort (e : event) : bool :=
  match e with EvAbort => true | _ => false end.

(** One event of the transfer. The second component is [None] while the
    transfer runs and the transport's error code once a sink stopped it;
    after that no sink is called any more, the abort function still can be. *)
Definition perform_step (s : FetchWorker * option Z) (e : event)
  : FetchWorker * option Z :=
  let '(w, stopped) := s in
  match stopped with
  | Some rc => ((if is_abort e then abort w else w), Some rc)
  | None =>
      match e with
      | EvAbort => (abort w, None)
      | EvHeader line =>
          let '(w', r) := writeHeader w line in
          (w', if r =? Z.of_nat (String.length line) then None
               else Some CURLE_WRITE_ERROR)
      | EvBody chunk ok =>
          let '(w', r) := writeBody w chunk ok in
          (w', if r =? size chunk then None else Some CURLE_WRITE_ERROR)
      | EvProgress p ok =>
          if wantProgress_ (req w) then
            let '(w', r) := onProgress w p ok in
            (w', if r =? 0 then None else Some CURLE_ABORTED_BY_CALLBACK)
          else (w, None)
      end
  end.

Definition perform_steps (w : FetchWorker) (evs : list event) : FetchWorker * option Z :=
  fold_left perform_step evs (w, None).

(** [curl_easy_perform]: [rc_end] is the transport's own result when no sink
    stopped the transfer. *)
Definition perform (w : FetchWorker) (evs : list event) (rc_end : Z) : FetchWorker * Z :=
  let '(w', stopped) := perform_steps w evs in
  (w', default rc_end stopped).

(** What the transport and the allocator decide for one run of [Execute]. *)
Record Transport := mkTransport {
  easy_init_ok : bool;
  slist_append_ok : bool;
  events : list event;
  rc_end : Z;
  response_code : Z;
  effective_url : option string;
}.

(** The reason phrases [Execute] falls back to. *)
Definition defaultStatusText (code : Z) : string :=
  if code =? 200 then "OK"
  else if code =? 201 then "Created"
  else if code =? 204 then "No Content"
  else if code =? 301 then "Moved Permanently"
  else if code =? 302 then "Found"
  else if code =? 400 then "Bad Request"
  else if code =? 401 then "Unauthorized"
  else if code =? 403 then "Forbidden"
  else if code =? 404 then "Not Found"
  else if code =? 500 then "Internal Server Error"
  else EmptyString.

Section Execute.

Variable curl_easy_strerror : Z → string.

(** The end of [Execute], after a successful perform. *)
Definition finishResponse (r : ResponseData) (t : Transport) : ResponseData :=
  let st := response_code t in
  let u := default (url r) (effective_url t) in
  {| body := body r; headers := headers r; status := st; url := u;
     statusText :=
       if string_empty (statusText r) then defaultStatusText st else statusText r |}.

(** [Execute]: the worker afterwards and the message of the exception it
    threw, if any. [slist_append_ok] false makes the first append to the
    header list throw. *)
Definition Execute (w : FetchWorker) (t : Transport) : FetchWorker * option string :=
  if negb (easy_init_ok t) then (w, Some "curl_easy_init failed") else
  if negb (slist_append_ok t) &&
     match requestHeaders (req w) with [] => false | _ :: _ => true end
  then (w, Some "curl_slist_append failed") else
  let '(w1, rc) := perform w (events t) (rc_end t) in
  if abort_ w1 then (w1, Some "request aborted")
  else if negb (rc =? CURLE_OK)
  then (w1, Some ("curl perform error: " +:+ curl_easy_strerror rc))
  else (set_resp w1 (finishResponse (resp_ w1) t), None).

End Execute.

(** ** The result handed to the caller *)

(** A property of the headers object: the array of a header's values, the
    table stored as [__first], or one of the methods. *)
Inductive HeaderProp :=
| HValues (vs : list string)
| HFirst (first : gmap string string)
| HMethod (name : string).

(** The headers object [h]: its own properties, and the object that has
    replaced its prototype, if one has. *)
Record HeadersObject := mkHeadersObject {
  own : gmap string HeaderProp;
  proto : option HeaderProp;
}.

(** [o.Set(utf8name, v)] with a [std::string] name and an object [v]. The
    name is read up to its first NUL. An ordinary assignment to the name
    __proto__ reaches the setter every plain object inherits: it replaces the
    prototype and creates no property. *)
Definition Object_Set (o : HeadersObject) (utf8name : string) (v : HeaderProp)
  : HeadersObject :=
  let k := c_str utf8name in
  if String.eqb k "__proto__" then {| own := own o; proto := Some v |}
  else {| own := <[k := v]> (own o); proto := proto o |}.

(** [first.Set(utf8name, s)] with a string [s]: the inherited setter
    ignores a value that is not an object. *)
Definition first_Set (first : gmap string string) (utf8name s : string)
  : gmap string string :=
  let k := c_str utf8name in
  if String.eqb k "__proto__" then first else <[k := s]> first.

(** The entries of a [std::map] in the order its iterator visits them:
    ascending keys, bytes compared as unsigned. *)
Definition map_entries {A} (m : gmap string A) : list (string * A) :=
  merge_sort (λ x y : string * A, String.leb x.1 y.1) (map_to_list m).

Record Response := mkResponse {
  r_status : Z;
  r_statusText : string;
  r_url : string;
  r_ok : bool;
  r_headers : HeadersObject;
  r_body : list byte;
}.

(** [OnOK] *)
Definition OnOK (w : FetchWorker) : Response :=
  let r := resp_ w in
  let entries := map_entries (headers r) in
  let h :=
    fold_left (λ h kv, Object_Set h kv.1 (HValues kv.2)) entries
      {| own := ∅; proto := None |} in
  let first :=
    fold_left (λ first kv, match kv.2 with
                           | v :: _ => first_Set first kv.1 v
                           | [] => first
                           end) entries ∅ in
  let h := Object_Set h "__first" (HFirst first) in
  let h := Object_Set h "get" (HMethod "get") in
  let h := Object_Set h "forEach" (HMethod "forEach") in
  let h := Object_Set h "entries" (HMethod "entries") in
  {| r_status := status r;
     r_statusText := statusText r;
     r_url := url r;
     r_ok := (status r >=? 200) && (status r <? 300);
     r_headers := h;
     r_body := body r |}.

(** How the promise is settled: resolved by [OnOK], or rejected by [OnError]
    with the message of the exception. *)
Inductive Outcome :=
| Resolved (r : Response)
| Rejected (message : string).

Definition settle (curl_easy_strerror : Z → string) (w : FetchWorker) (t : Transport)
  : Outcome :=
  match Execute curl_easy_strerror w t with
  | (w', None) => Resolved (OnOK w')
  | (_, Some e) => Rejected e
  end.

Definition ABORTED : string := "request aborted".

(** ** Notions used to state the properties *)

Fixpoint string_forall (p : ascii → bool) (s : string) : bool :=
  match s with
  | EmptyString => true
  | String c s' => p c && string_forall p s'
  end.

(** No character of [s] is an upper-case letter. *)
Definition no_upper (s : string) : bool := string_forall (λ c, negb (isupper c)) s.

(** The text before and after the first colon of a raw line. *)
Definition before_colon (raw : string) : string :=
  match find_char ":" raw with
  | Some pos => substr raw 0 pos
  | None => raw
  end.
Definition after_colon (raw : string) : string :=
  match find_char ":" raw with
  | Some pos => substr_from raw (pos + 1)
  | None => EmptyString
  end.

Definition is_status_line (raw : string) : bool := starts_with "HTTP/" raw.

(** A well-formed header line: not a status line, with a colon, and with a
    name that is not blank. *)
Definition well_formed_header (raw : string) : bool :=
  negb (is_status_line raw) &&
  match find_char ":" raw with Some _ => true | None => false end &&
  negb (string_empty (trim (before_colon raw))).

Definition header_key (raw : string) : string := lower (trim (before_colon raw)).
Definition header_value (raw : string) : string := trim (after_colon raw).

(** The values of the lines filed under the name [k], in arrival order. *)
Definition values_under (k : string) (lines : list string) : list string :=
  header_value <$> filter (λ l, header_key l = k) lines.

(** The number of header values held in the mapping. *)
Definition header_count (m : gmap string (list string)) : nat :=
  map_fold (λ _ vs n, (length vs + n)%nat) O m.

(** The reason phrase a raw line sets: [None] when the line is no status
    line. *)
Definition reasonPhrase (raw : string) : option string :=
  if is_status_line raw
  then Some (statusText (addHeaderLine ResponseData_init raw))
  else None.

(** A key of the mapping that matches [name] whatever the case. *)
Definition has_key_ci (h : Object) (name : string) : bool :=
  existsb (λ k, String.eqb (lower k) (lower name)) (GetPropertyNames h).

(** A multipart body as the spec describes it: each part behind a delimiter
    line of the boundary, and the closing marker at the end. *)
Definition delimiter (boundary : string) : list byte :=
  String.list_byte_of_string ("--" +:+ boundary +:+ CRLF).
Definition closing_marker (boundary : string) : list byte :=
  String.list_byte_of_string ("--" +:+ boundary +:+ "--" +:+ CRLF).
Definition render (boundary : string) (parts : list (string * list byte)) : list byte :=
  concat ((λ p, delimiter boundary ++ p.2) <$> parts) ++ closing_marker boundary.

(** The parts of a form, without any boundary: for each property name, in
    enumeration order, what the encoder writes after the delimiter line. *)
Definition multipart_parts (Utf8Value : Value → string) (formObj : Object)
  : list (string * list byte) :=
  (λ name, (name, emitField Utf8Value name (Get formObj (c_str name)) [])) <$>
  GetPropertyNames formObj.

(** The response with another header mapping. *)
Definition with_headers (r : ResponseData) (m : gmap string (list string)) : ResponseData :=
  {| body := body r; headers := m; status := status r;
     url := url r; statusText := statusText r |}.

(** Every key of the mapping is non-empty and without upper-case letter. *)
Definition keys_ok (m : gmap string (list string)) : Prop :=
  ∀ k, is_Some (m !! k) → k ≠ EmptyString ∧ no_upper k = true.

(** An event that sets no reason phrase. *)
Definition no_reason (e : event) : Prop :=
  match e with
  | EvHeader line => reasonPhrase line = None ∨ reasonPhrase line = Some EmptyString
  | _ => True
  end.

(** The fixed table of reason phrases, as the spec lists it. *)
Definition STATUS_TABLE : list (Z * string) :=
  [(200, "OK"); (201, "Created"); (204, "No Content"); (301, "Moved Permanently");
   (302, "Found"); (400, "Bad Request"); (401, "Unauthorized"); (403, "Forbidden");
   (404, "Not Found"); (500, "Internal Server Error")].

(** ** Concrete requests and transfers, for the examples *)

(** A conversion to text, for examples: the text of a primitive, the bytes
    of a buffer, and the default text of an object. *)
Definition plain_text (v : Value) : string :=
  match v with
  | VUndefined => "undefined"
  | VPrimitive s => s
  | VBuffer d => String.string_of_list_byte d
  | VObject _ _ => "[object Object]"
  end.

(** Conversions of primitives written as text, for examples. *)
Definition number_of (v : Value) : Z :=
  match v with VPrimitive s => decimal_value 0 s | _ => 0 end.
Definition truth_of (v : Value) : bool :=
  match v with VPrimitive "true" => true | _ => false end.
Definition strerror_of (rc : Z) : string :=
  if rc =? CURLE_WRITE_ERROR then "Failed writing received data to disk/application"
  else if rc =? CURLE_ABORTED_BY_CALLBACK then "Operation was aborted by an application callback"
  else "error".

(** A buffer taken as an object, for examples: its indices only. *)
Definition buffer_indices (d : list byte) : Object :=
  imap (λ i b, (pretty i, VPrimitive (pretty (Byte.to_N b)))) d.

Definition new_worker (opts : Object) : FetchWorker :=
  FetchWorker_new plain_text number_of number_of truth_of buffer_indices
    "http://example.test/" opts (1, 2, 3)%N.

Definition bytes (s : string) : list byte := String.list_byte_of_string s.

(** The form of the spec's scenario: a file descriptor and a text field. *)
Definition sample_form : Object :=
  [("file", VObject false [("value", VBuffer (bytes "hi"));
                           ("filename", VPrimitive "a.txt");
                           ("contentType", VPrimitive "text/plain")]);
   ("name", VPrimitive "x")].

Definition C5_lines : list string :=
  ["Set-Cookie:  a=1 " +:+ CRLF; "X-Id : 7" +:+ CRLF; "set-cookie:b=2" +:+ CRLF].

(** A transfer the caller aborts between two chunks, and that the transport
    then reports as completed. *)
Definition aborted_transfer : Transport :=
  {| easy_init_ok := true; slist_append_ok := true;
     events := [EvHeader ("HTTP/1.1 200 OK" +:+ CRLF); EvHeader CRLF;
                EvBody (bytes "he") true; EvAbort; EvBody [] true];
     rc_end := CURLE_OK; response_code := 200; effective_url := None |}.

Definition capped_worker : FetchWorker := new_worker [("maxBodySize", VPrimitive "4")].

(** A transfer whose only status line has no reason phrase. *)
Definition bare_status_transfer : Transport :=
  {| easy_init_ok := true; slist_append_ok := true;
     events := [EvHeader ("HTTP/2 404" +:+ CRLF); EvHeader ("Content-Length: 2" +:+ CRLF);
                EvHeader CRLF; EvBody (bytes "no") true];
     rc_end := CURLE_OK; response_code := 404; effective_url := Some "http://example.test/x" |}.

(** ** Further notions *)

Definition string_head (s : string) : option ascii :=
  match s with EmptyString => None | String c _ => Some c end.

Fixpoint string_last (s : string) : option ascii :=
  match s with
  | EmptyString => None
  | String c EmptyString => Some c
  | String _ s' => string_last s'
  end.

(** A lower-case hexadecimal digit. *)
Definition is_hex_digit (c : ascii) : bool :=
  let n := N_of_ascii c in
  (((48 <=? n) && (n <=? 57)) || ((97 <=? n) && (n <=? 102)))%N.

Definition BOUNDARY_PREFIX : string := "----LioraFormBoundary".

Definition not_space (c : ascii) : bool := negb (isspace c).
Definition not_nul (c : ascii) : bool := negb (Ascii.eqb c NUL).
(** The string holds no NUL character. *)
Definition no_nul (s : string) : bool := string_forall not_nul s.

(** A name made of ASCII characters other than NUL: the conversions between
    the runtime's strings and C strings leave it as it is. *)
Definition is_plain (c : ascii) : bool :=
  ((0 <? N_of_ascii c) && (N_of_ascii c <? 128))%N.
Definition plain_name (s : string) : bool := string_forall is_plain s.

(** The names [OnOK] sets on the headers object after the headers, and the
    name that reaches the inherited setter. *)
Definition RESERVED_NAMES : list string :=
  ["__first"; "get"; "forEach"; "entries"; "__proto__"].
Definition not_crlf (c : ascii) : bool := negb (is_crlf c).

(** The header line every part begins with. *)
Definition disposition (name : string) : string :=
  "Content-Disposition: form-data; name=" +:+ DQUOTE +:+ name +:+ DQUOTE.

(** The buffer a descriptor object carries: that of the first of [value],
    [data], [buffer] that is present and a buffer. *)
Definition descriptor_buffer (o : Object) : option (list byte) :=
  if Has o "value" && IsBuffer (Get o "value") then Some (AsBuffer (Get o "value"))
  else if Has o "data" && IsBuffer (Get o "data") then Some (AsBuffer (Get o "data"))
  else if Has o "buffer" && IsBuffer (Get o "buffer") then Some (AsBuffer (Get o "buffer"))
  else None.

(** The text of a property, the fallback when the property is missing or its
    text is empty. *)
Definition property_or (Utf8Value : Value → string) (o : Object) (k fallback : string)
  : string :=
  if Has o k then
    if string_empty (Utf8Value (Get o k)) then fallback else Utf8Value (Get o k)
  else fallback.

(** What [Execute] hands over as CURLOPT_POSTFIELDS, with its size: the
    multipart body when one was built, else the body when it is not empty,
    else nothing. *)
Definition postFields (r : Request) : option (list byte) :=
  if useMultipart_ r then Some (multipartBody_ r)
  else match body_ r with
       | [] => None
       | _ :: _ => Some (body_ r)
       end.

(** The bytes to send, nothing when there are none. *)
Definition nonempty_bytes (l : list byte) : option (list byte) :=
  match l with [] => None | _ :: _ => Some l end.

(** The request body the [body] option asks for. *)
Definition body_option (Utf8Value : Value → string) (opts : Object) : list byte :=
  if Has opts "body" then
    if IsBuffer (Get opts "body") then AsBuffer (Get opts "body")
    else String.list_byte_of_string (Utf8Value (Get opts "body"))
  else [].

(** A header line for the field [name], written by the caller with one of
    the two spellings the constructor looks up, or the default line. *)
Definition header_line_for (canonical lowercase default line : string) : Prop :=
  line = default ∨
  (∃ v, line = canonical +:+ ": " +:+ v) ∨
  (∃ v, line = lowercase +:+ ": " +:+ v).

(** What a sequence of events offers to each sink: the header lines, the
    body chunks, the chunks and the progress reports whose queueing does not
    fail. *)
Definition header_lines (evs : list event) : list string :=
  omap (λ e, match e with EvHeader l => Some l | _ => None end) evs.
Definition body_chunks (evs : list event) : list (list byte) :=
  omap (λ e, match e with EvBody c _ => Some c | _ => None end) evs.
Definition delivered_chunks (evs : list event) : list (list byte) :=
  omap (λ e, match e with EvBody c true => Some c | _ => None end) evs.
Definition progress_reports (evs : list event) : list Progress :=
  omap (λ e, match e with EvProgress p true => Some p | _ => None end) evs.

(** Every call of the body sink finds the allocator willing. *)
Definition all_ok (evs : list event) : bool :=
  forallb (λ e, match e with EvBody _ ok => ok | _ => true end) evs.

(** A response streamed to the caller: the worker takes [onData]. *)
Definition streaming_worker : FetchWorker :=
  new_worker [("onData", VObject true []); ("onProgress", VObject true [])].

(** A two-hop transfer with progress reports between the chunks. *)
Definition redirect_transfer : Transport :=
  {| easy_init_ok := true; slist_append_ok := true;
     events := [EvHeader ("HTTP/1.1 302 Found" +:+ CRLF);
                EvHeader ("Location: /b" +:+ CRLF); EvHeader CRLF;
                EvHeader ("HTTP/1.1 200 OK" +:+ CRLF);
                EvHeader ("Content-Type: text/plain" +:+ CRLF); EvHeader CRLF;
                EvProgress (mkProgress 5 2 0 0) true; EvBody (bytes "he") true;
                EvProgress (mkProgress 5 5 0 0) true; EvBody (bytes "llo") true];
     rc_end := CURLE_OK; response_code := 200;
     effective_url := Some "http://example.test/b" |}.

(** ** The owning handle

    [Handle<T, Deleter>]: a pointer is a number, null is [None]. The state is
    the handle with the calls of the deleter made so far, oldest first. *)
Module Handle.

Record t := mk { p : option nat }.

(** The deleter, here [easy_cleanup], acts on a non-null pointer only. *)
Definition Deleter (q : option nat) (cleaned : list nat) : list nat :=
  match q with Some x => cleaned ++ [x] | None => cleaned end.

Definition reset (np : option nat) (s : t * list nat) : t * list nat :=
  let '(h, cleaned) := s in
  (mk np, if p h is Some _ then Deleter (p h) cleaned else cleaned).

(** The destructor. *)
Definition destroy (s : t * list nat) : t * list nat := reset None s.

Definition get (h : t) : option nat := p h.

(** [release]: the pointer given up, and the handle left null. *)
Definition release (s : t * list nat) : option nat * (t * list nat) :=
  let '(h, cleaned) := s in (p h, (mk None, cleaned)).

(** [put] followed by the store of [np] through the address it returns. *)
Definition put (np : option nat) (s : t * list nat) : t * list nat :=
  let '(_, cleaned) := reset None s in (mk np, cleaned).

Inductive op := Reset (np : option nat) | Put (np : option nat) | Release.

(** The handle and the calls of the deleter, with the pointers released. *)
Definition step (st : t * list nat * list nat) (o : op) : t * list nat * list nat :=
  let '(s, released) := st in
  match o with
  | Reset np => (reset np s, released)
  | Put np => (put np s, released)
  | Release => let '(r, s') := release s in (s', released ++ option_list r)
  end.

(** The pointers handed to the handle by a sequence of operations. *)
Definition handed (ops : list op) : list nat :=
  flat_map (λ o, match o with
                 | Reset np | Put np => option_list np
                 | Release => []
                 end) ops.

(** A handle built on [p0], used, then destroyed. *)
Definition lifetime (p0 : option nat) (ops : list op) : t * list nat * list nat :=
  let '(s, released) := fold_left step ops (mk p0, [], []) in
  (destroy s, released).

End Handle.

(** ** The process-wide gates

    [g_onceCurl], [g_onceShare] and [g_share], with the number of calls made
    to curl_global_init, curl_share_init and curl_share_cleanup. *)
Record Globals := mkGlobals {
  g_onceCurl : bool;
  global_inits : nat;
  g_onceShare : bool;
  g_share : option nat;
  share_inits : nat;
  share_cleanups : nat;
}.

Definition Globals_init : Globals :=
  {| g_onceCurl := false; global_inits := O; g_onceShare := false;
     g_share := None; share_inits := O; share_cleanups := O |}.

Definition ensureCurlGlobal (g : Globals) : Globals :=
  if g_onceCurl g then g
  else {| g_onceCurl := true; global_inits := S (global_inits g);
          g_onceShare := g_onceShare g; g_share := g_share g;
          share_inits := share_inits g; share_cleanups := share_cleanups g |}.

(** [initShare]: [created] is what curl_share_init returns, null on failure. *)
Definition initShare (created : option nat) (g : Globals) : Globals :=
  if g_onceShare g then g
  else {| g_onceCurl := g_onceCurl g; global_inits := global_inits g;
          g_onceShare := true; g_share := created;
          share_inits := S (share_inits g); share_cleanups := share_cleanups g |}.

Definition cleanupShare (g : Globals) : Globals :=
  match g_share g with
  | Some _ =>
      {| g_onceCurl := g_onceCurl g; global_inits := global_inits g;
         g_onceShare := g_onceShare g; g_share := None;
         share_inits := share_inits g; share_cleanups := S (share_cleanups g) |}
  | None => g
  end.

Inductive gate_call :=
| CallEnsureCurlGlobal
| CallInitShare (created : option nat)
| CallCleanupShare.

Definition gate_step (g : Globals) (c : gate_call) : Globals :=
  match c with
  | CallEnsureCurlGlobal => ensureCurlGlobal g
  | CallInitShare created => initShare created g
  | CallCleanupShare => cleanupShare g
  end.

(** * Properties *)

(** ** The definitions on concrete inputs *)

Example trim_lower_chomp :
  trim "  a b  " = "a b" ∧ lower "Content-TYPE" = "content-type" ∧
  chomp ("abc" +:+ CRLF +:+ CRLF) = "abc" ∧ find_char ":" "ab:cd:e" = Some 2%nat.
Proof. repeat split; reflexivity. Qed.

Example addHeaderLine_status_line_example :
  let r := addHeaderLine ResponseData_init ("HTTP/1.1 404 Not Found" +:+ CRLF) in
  status r = 404 ∧ statusText r = "Not Found".
Proof. vm_compute. split; reflexivity. Qed.

Example addHeaderLine_bare_status_example :
  let r0 := mkResponseData [] ∅ 302 EmptyString "Found" in
  let r1 := addHeaderLine r0 "HTTP/2 200" in
  let r2 := addHeaderLine r0 "HTTP/2" in
  (status r1, statusText r1) = (200, EmptyString) ∧
  (status r2, statusText r2) = (302, EmptyString).
Proof. vm_compute. split; reflexivity. Qed.

Example addHeaderLines_example :
  map_to_list (headers (addHeaderLines ResponseData_init
     ["HTTP/1.1 302 Found" +:+ CRLF; "Location: /b" +:+ CRLF; CRLF;
      "HTTP/1.1 200 OK" +:+ CRLF; "Set-Cookie:  a=1 " +:+ CRLF; "junk" +:+ CRLF;
      "set-cookie:b=2" +:+ CRLF; CRLF]))
  = [("set-cookie", ["a=1"; "b=2"])].
Proof. vm_compute. reflexivity. Qed.

Example randomBoundary_example :
  randomBoundary (0, 255, 4096)%N = "----LioraFormBoundary0ff1000".
Proof. reflexivity. Qed.

Example buildMultipart_example :
  buildMultipartFromNapi plain_text sample_form [] (1, 2, 3)%N =
  (bytes ("------LioraFormBoundary123" +:+ CRLF +:+
          "Content-Disposition: form-data; name=" +:+ DQUOTE +:+ "file" +:+ DQUOTE +:+
          "; filename=" +:+ DQUOTE +:+ "a.txt" +:+ DQUOTE +:+ CRLF +:+
          "Content-Type: text/plain" +:+ CRLF +:+ CRLF +:+ "hi" +:+ CRLF +:+
          "------LioraFormBoundary123" +:+ CRLF +:+
          "Content-Disposition: form-data; name=" +:+ DQUOTE +:+ "name" +:+ DQUOTE +:+
          CRLF +:+ CRLF +:+ "x" +:+ CRLF +:+
          "------LioraFormBoundary123--" +:+ CRLF),
   "----LioraFormBoundary123").
Proof. vm_compute. reflexivity. Qed.

Example requestHeaders_example :
  requestHeaders (req (new_worker
     [("headers", VObject false [("connection", VPrimitive "close");
                                 ("X-Id", VPrimitive "7")]);
      ("formData", VObject false sample_form)]))
  = [UA_DEFAULT; AE_DEFAULT; EXPECT_DEFAULT;
     "Content-Type: multipart/form-data; boundary=----LioraFormBoundary123";
     "connection: close"; "X-Id: 7"].
Proof. vm_compute. reflexivity. Qed.

Example writeBody_example :
  let '(w1, r1) := writeBody capped_worker (bytes "abc") true in
  let '(w2, r2) := writeBody w1 (bytes "d") true in
  let '(w3, r3) := writeBody w2 (bytes "e") true in
  (r1, r2, r3) = (3, 1, 0) ∧ body (resp_ w3) = bytes "abcd" ∧ downloaded_ w3 = 4.
Proof. vm_compute. repeat split; reflexivity. Qed.

Example settle_example :
  match settle strerror_of (new_worker []) bare_status_transfer with
  | Resolved r =>
      r_status r = 404 ∧ r_statusText r = "Not Found" ∧ r_ok r = false ∧
      r_url r = "http://example.test/x" ∧ r_body r = bytes "no" ∧
      own (r_headers r) !! "content-length" = Some (HValues ["2"]) ∧
      own (r_headers r) !! "__first" = Some (HFirst {["content-length" := "2"]})
  | Rejected _ => False
  end.
Proof. vm_compute. repeat split; reflexivity. Qed.

(** ** Strings *)

Lemma string_empty_true s : string_empty s = true ↔ s = EmptyString.
Proof. destruct s; simpl; split; intros H; try reflexivity; discriminate H. Qed.

Lemma string_empty_false s : string_empty s = false ↔ s ≠ EmptyString.
Proof.
  destruct s; simpl; split; intros H; try reflexivity; try discriminate.
  by destruct H.
Qed.

Lemma tolower_not_upper c : isupper (tolower c) = false.
Proof.
  destruct c as [[] [] [] [] [] [] [] []]; vm_compute; reflexivity.
Qed.

Lemma lower_no_upper s : no_upper (lower s) = true.
Proof.
  induction s as [|c s IH]; [reflexivity|].
  unfold no_upper, lower in *. simpl.
  by rewrite tolower_not_upper, IH.
Qed.

Lemma lower_empty s : lower s = EmptyString ↔ s = EmptyString.
Proof. destruct s; simpl; split; intros H; try reflexivity; discriminate H. Qed.

Lemma lower_idem s : lower (lower s) = lower s.
Proof.
  induction s as [|c s IH]; [reflexivity|].
  unfold lower in *. simpl. f_equal; [|exact IH].
  unfold tolower at 1. by rewrite tolower_not_upper.
Qed.

Section DropWhile.
Variables p q : ascii → bool.
Hypothesis q_in_p : ∀ c, q c = true → p c = true.

Lemma drop_while_end_absorb s :
  drop_while_end p (drop_while_end q s) = drop_while_end p s.
Proof.
  induction s as [|c s IH]; [reflexivity|]. simpl.
  destruct (string_empty (drop_while_end q s)) eqn:E, (q c) eqn:Q; simpl;
    rewrite ?IH; try reflexivity.
  apply string_empty_true in E. rewrite E in IH. simpl in IH.
  rewrite <- IH. simpl. by rewrite (q_in_p _ Q).
Qed.

Lemma drop_while_drop_while_end s :
  drop_while p (drop_while_end q s) = drop_while_end q (drop_while p s).
Proof.
  induction s as [|c s IH]; [reflexivity|]. simpl.
  destruct (p c) eqn:P.
  - destruct (string_empty (drop_while_end q s)) eqn:E, (q c) eqn:Q; simpl;
      rewrite ?P; try exact IH.
    apply string_empty_true in E. rewrite E in IH. simpl in IH. by rewrite <- IH.
  - assert (q c = false) as Q.
    { destruct (q c) eqn:Q; [|done]. apply q_in_p in Q. congruence. }
    rewrite Q, andb_false_r. simpl. by rewrite P, Q, andb_false_r.
Qed.
End DropWhile.

Lemma is_crlf_isspace c : is_crlf c = true → isspace c = true.
Proof.
  unfold is_crlf. intros H. apply orb_true_iff in H as [H|H];
    apply Ascii.eqb_eq in H; subst; reflexivity.
Qed.

Lemma trim_chomp s : trim (chomp s) = trim s.
Proof.
  unfold trim, chomp.
  rewrite (drop_while_drop_while_end isspace is_crlf is_crlf_isspace).
  apply drop_while_end_absorb, is_crlf_isspace.
Qed.

Lemma string_app_length a b :
  String.length (a +:+ b) = (String.length a + String.length b)%nat.
Proof. induction a as [|c a IH]; simpl; [done|]. by rewrite IH. Qed.

Lemma find_char_split c s pos :
  find_char c s = Some pos →
  ∃ a b, s = a +:+ String c b ∧ String.length a = pos ∧ find_char c a = None.
Proof.
  revert pos. induction s as [|x s IH]; intros pos H; [discriminate|].
  simpl in H. destruct (Ascii.eqb x c) eqn:E.
  - apply Ascii.eqb_eq in E. subst x. injection H as <-.
    by exists EmptyString, s.
  - destruct (find_char c s) as [i|] eqn:F; [|discriminate].
    injection H as <-. destruct (IH i eq_refl) as (a & b & -> & <- & Ha).
    exists (String x a), b. simpl. by rewrite E, Ha.
Qed.

Lemma find_char_app c a b :
  find_char c a = None → find_char c (a +:+ String c b) = Some (String.length a).
Proof.
  induction a as [|x a IH]; simpl.
  - by rewrite Ascii.eqb_refl.
  - destruct (Ascii.eqb x c); [discriminate|].
    destruct (find_char c a); [discriminate|]. intros _. by rewrite IH.
Qed.

Lemma find_char_app_None c a b :
  find_char c a = None → find_char c b = None → find_char c (a +:+ b) = None.
Proof.
  induction a as [|x a IH]; simpl; [done|].
  destruct (Ascii.eqb x c); [discriminate|].
  destruct (find_char c a); [discriminate|]. intros _ Hb. by rewrite IH.
Qed.

Lemma chomp_app a c b :
  is_crlf c = false → chomp (a +:+ String c b) = a +:+ String c (chomp b).
Proof.
  intros Hc. unfold chomp. induction a as [|x a IH]; simpl.
  - by rewrite Hc, andb_false_r.
  - rewrite IH. destruct a; reflexivity.
Qed.

Lemma find_char_chomp_None c s :
  find_char c s = None → find_char c (chomp s) = None.
Proof.
  unfold chomp. induction s as [|x s IH]; simpl; [done|].
  destruct (Ascii.eqb x c) eqn:E; [discriminate|].
  destruct (find_char c s); [discriminate|]. intros _.
  destruct (string_empty _ && is_crlf x); simpl; [done|].
  by rewrite E, IH.
Qed.

Lemma substr_prefix a x : substr (a +:+ x) 0 (String.length a) = a.
Proof.
  unfold substr. induction a as [|c a IH]; simpl.
  - by destruct x.
  - by rewrite IH.
Qed.

Lemma substring_0_all x : String.substring 0 (String.length x) x = x.
Proof. induction x as [|c x IH]; simpl; [done|]. by rewrite IH. Qed.

Lemma substr_from_suffix a c x :
  substr_from (a +:+ String c x) (String.length a + 1) = x.
Proof.
  unfold substr_from. rewrite string_app_length. simpl.
  replace (String.length a + S (String.length x) - (String.length a + 1))%nat
    with (String.length x) by lia.
  induction a as [|y a IH]; simpl; [apply substring_0_all|exact IH].
Qed.


Lemma prefix_empty x : String.prefix EmptyString x = true.
Proof. destruct x; reflexivity. Qed.

Lemma starts_with_chomp p s :
  string_forall (λ c, negb (is_crlf c)) p = true →
  starts_with p (chomp s) = starts_with p s.
Proof.
  unfold starts_with, chomp. revert s.
  induction p as [|a p IH]; intros s Hp; [by rewrite !prefix_empty|].
  simpl in Hp. apply andb_true_iff in Hp as [Ha Hp].
  destruct s as [|c s]; [done|]. simpl.
  destruct (string_empty (drop_while_end is_crlf s) && is_crlf c) eqn:E; simpl.
  - apply andb_true_iff in E as [_ E].
    destruct (ascii_dec a c) as [->|]; [|done].
    rewrite E in Ha. discriminate.
  - destruct (ascii_dec a c); [by apply IH|done].
Qed.

(** The stored key and value, read off the raw line. *)
Lemma chomp_header_fields raw pos :
  find_char ":" raw = Some pos →
  find_char ":" (chomp raw) = Some pos ∧
  substr (chomp raw) 0 pos = before_colon raw ∧
  trim (substr_from (chomp raw) (pos + 1)) = header_value raw.
Proof.
  intros H. unfold header_value, before_colon, after_colon. rewrite H.
  destruct (find_char_split _ _ _ H) as (a & b & -> & <- & Ha).
  rewrite chomp_app by reflexivity.
  rewrite (find_char_app _ _ _ Ha), !substr_prefix, !substr_from_suffix.
  by rewrite trim_chomp.
Qed.

(** What [addHeaderLine] does with a line that is no status line. *)
Lemma addHeaderLine_header r raw :
  is_status_line raw = false →
  addHeaderLine r raw =
    match find_char ":" raw with
    | None => r
    | Some _ =>
        if string_empty (trim (before_colon raw)) then r
        else with_headers r (push_header (header_key raw) (header_value raw) (headers r))
    end.
Proof.
  intros Hs. unfold addHeaderLine, is_status_line in *.
  rewrite starts_with_chomp, Hs by reflexivity.
  destruct (find_char ":" raw) as [pos|] eqn:F.
  - destruct (chomp_header_fields _ _ F) as (-> & E1 & E2).
    destruct (find_char_split _ _ _ F) as (a & b & Hraw & _ & _).
    assert (string_empty (chomp raw) = false) as ->.
    { rewrite Hraw, chomp_app by reflexivity. by destruct a. }
    rewrite E1, E2. unfold header_key.
    destruct (trim (before_colon raw)); reflexivity.
  - rewrite (find_char_chomp_None _ _ F). by destruct (string_empty _).
Qed.

(** ** The header accumulator *)

Lemma lookup_push_header key v (m : gmap string (list string)) k :
  push_header key v m !! k =
    if decide (key = k) then Some (default [] (m !! k) ++ [v]) else m !! k.
Proof.
  unfold push_header. rewrite lookup_insert.
  by destruct (decide (key = k)) as [->|].
Qed.

Lemma header_count_insert k vs (m : gmap string (list string)) :
  m !! k = None → header_count (<[k:=vs]> m) = (length vs + header_count m)%nat.
Proof.
  intros H. unfold header_count.
  rewrite map_fold_insert_L; [done| |done]. intros; lia.
Qed.

Lemma header_count_push key v (m : gmap string (list string)) :
  header_count (push_header key v m) = S (header_count m).
Proof.
  unfold push_header. destruct (m !! key) as [vs|] eqn:E; simpl.
  - rewrite <- (insert_delete_id m key vs E) at 2.
    rewrite <- insert_delete_eq.
    rewrite !header_count_insert by apply lookup_delete_eq.
    rewrite length_app. simpl. lia.
  - by rewrite header_count_insert.
Qed.

Lemma extract_long_stream a b st : (extract_long a st).2 = (extract_long b st).2.
Proof.
  unfold extract_long. destruct st as [s|]; [|done].
  destruct (string_empty (drop_while isspace s)); [done|].
  destruct (match drop_while isspace s with
            | String "-" r => (true, r)
            | String "+" r => (false, r)
            | _ => (false, drop_while isspace s)
            end) as [neg s2].
  destruct (string_empty (take_while isdigit s2)); [done|].
  repeat match goal with |- context [if ?c then _ else _] => destruct c end; done.
Qed.

(** What [addHeaderLine] does with a status line. *)
Lemma addHeaderLine_status_line r raw :
  is_status_line raw = true →
  headers (addHeaderLine r raw) = ∅ ∧
  body (addHeaderLine r raw) = body r ∧
  url (addHeaderLine r raw) = url r ∧
  statusText (addHeaderLine r raw) = statusText (addHeaderLine ResponseData_init raw).
Proof.
  intros Hs. unfold addHeaderLine, is_status_line in *.
  rewrite starts_with_chomp, Hs by reflexivity.
  destruct (string_empty (chomp raw)) eqn:E.
  { apply string_empty_true in E.
    rewrite <- (starts_with_chomp "HTTP/"), E in Hs by reflexivity. discriminate. }
  destruct (extract_word (stream_of (chomp raw))) as [proto iss1].
  pose proof (extract_long_stream (status (resetHop r))
                (status (resetHop ResponseData_init)) iss1) as Hl.
  destruct (extract_long (status (resetHop r)) iss1) as [st iss2].
  destruct (extract_long (status (resetHop ResponseData_init)) iss1) as [st' iss2'].
  simpl in *. by subst.
Qed.

Lemma addHeaderLine_well_formed r raw :
  well_formed_header raw = true →
  addHeaderLine r raw =
    with_headers r (push_header (header_key raw) (header_value raw) (headers r)).
Proof.
  unfold well_formed_header. intros H.
  apply andb_true_iff in H as [H H3]. apply andb_true_iff in H as [H1 H2].
  apply negb_true_iff in H1, H3.
  rewrite addHeaderLine_header by done.
  destruct (find_char ":" raw); [|done]. by rewrite H3.
Qed.

Lemma values_under_cons k l hs :
  values_under k (l :: hs) =
    if decide (header_key l = k) then header_value l :: values_under k hs
    else values_under k hs.
Proof.
  unfold values_under. rewrite filter_cons. by destruct (decide _).
Qed.

Lemma addHeaderLines_lookup hs :
  Forall (λ l, well_formed_header l = true) hs →
  ∀ r k,
    headers (addHeaderLines r hs) !! k =
      match values_under k hs with
      | [] => headers r !! k
      | vs => Some (default [] (headers r !! k) ++ vs)
      end.
Proof.
  induction 1 as [|l hs Hl _ IH]; intros r k; [done|].
  unfold addHeaderLines in *. cbn [fold_left].
  rewrite IH, values_under_cons, (addHeaderLine_well_formed _ _ Hl).
  cbn [headers with_headers]. rewrite lookup_push_header.
  destruct (decide (header_key l = k)) as [<-|]; [|done].
  destruct (values_under _ hs); [done|]. cbn [from_option id]. by rewrite <- app_assoc.
Qed.

Lemma addHeaderLines_count hs :
  Forall (λ l, well_formed_header l = true) hs →
  ∀ r, header_count (headers (addHeaderLines r hs)) =
       (header_count (headers r) + length hs)%nat.
Proof.
  induction 1 as [|l hs Hl _ IH]; intros r; unfold addHeaderLines in *;
    cbn [fold_left length]; [lia|].
  rewrite IH, (addHeaderLine_well_formed _ _ Hl). cbn [headers with_headers].
  rewrite header_count_push. lia.
Qed.

Lemma addHeaderLines_status hs :
  Forall (λ l, well_formed_header l = true) hs →
  ∀ r, status (addHeaderLines r hs) = status r ∧
       statusText (addHeaderLines r hs) = statusText r ∧
       body (addHeaderLines r hs) = body r ∧
       url (addHeaderLines r hs) = url r.
Proof.
  induction 1 as [|l hs Hl _ IH]; intros r; unfold addHeaderLines in *;
    cbn [fold_left]; [done|].
  destruct (IH (addHeaderLine r l)) as (-> & -> & -> & ->).
  by rewrite (addHeaderLine_well_formed _ _ Hl).
Qed.

(** C5. After a status line (a line that begins with HTTP/) followed by N
    well-formed header lines (lines that are no status line and have a colon
    after a name that is not blank), the mapping holds exactly N values;
    under each name, lower-cased and trimmed, it holds the trimmed values of
    the lines with that name in arrival order; nothing accumulated before the
    status line is left (the status line empties the mapping), and the status
    code and text are the ones the status line set. *)
Theorem C5_status_line_then_headers (r : ResponseData) (sl : string) (hs : list string) :
  is_status_line sl = true →
  Forall (λ l, well_formed_header l = true) hs →
  let r' := addHeaderLines r (sl :: hs) in
  header_count (headers r') = length hs ∧
  (∀ k, headers r' !! k =
        match values_under k hs with [] => None | vs => Some vs end) ∧
  headers (addHeaderLine r sl) = ∅ ∧
  status r' = status (addHeaderLine r sl) ∧
  statusText r' = statusText (addHeaderLine r sl).
Proof.
  intros Hsl Hhs r'. subst r'. unfold addHeaderLines. cbn [fold_left].
  fold (addHeaderLines (addHeaderLine r sl) hs).
  destruct (addHeaderLine_status_line r sl Hsl) as (He & _).
  destruct (addHeaderLines_status hs Hhs (addHeaderLine r sl)) as (Hst & Htx & _).
  rewrite addHeaderLines_count, He by done.
  repeat split; try done.
  intros k. rewrite addHeaderLines_lookup, He, lookup_empty by done.
  by destruct (values_under k hs).
Qed.

Lemma C5_witness :
  let r' := addHeaderLines
              (addHeaderLines ResponseData_init ["HTTP/1.1 302 Found" +:+ CRLF; "Old: 1" +:+ CRLF])
              (("HTTP/1.1 200 OK" +:+ CRLF) :: C5_lines) in
  header_count (headers r') = 3%nat ∧
  headers r' !! "set-cookie" = Some ["a=1"; "b=2"] ∧
  headers r' !! "x-id" = Some ["7"] ∧
  headers r' !! "old" = None ∧
  status r' = 200 ∧ statusText r' = "OK".
Proof.
  intros r'. subst r'.
  destruct (C5_status_line_then_headers
              (addHeaderLines ResponseData_init ["HTTP/1.1 302 Found" +:+ CRLF; "Old: 1" +:+ CRLF])
              ("HTTP/1.1 200 OK" +:+ CRLF) C5_lines)
    as (Hn & Hl & _ & Hs & Ht).
  - reflexivity.
  - repeat constructor.
  - rewrite Hn, !Hl, Hs, Ht. vm_compute. repeat split; reflexivity.
Defined.

Lemma keys_ok_empty : keys_ok ∅.
Proof. intros k [vs H]. by rewrite lookup_empty in H. Qed.

Lemma addHeaderLine_keys_ok r raw :
  keys_ok (headers r) → keys_ok (headers (addHeaderLine r raw)).
Proof.
  intros Hr. destruct (is_status_line raw) eqn:Hs.
  - destruct (addHeaderLine_status_line r raw Hs) as (-> & _). apply keys_ok_empty.
  - rewrite addHeaderLine_header by done.
    destruct (find_char ":" raw); [|done].
    destruct (string_empty (trim (before_colon raw))) eqn:E; [done|].
    intros k. cbn [headers with_headers]. rewrite lookup_push_header.
    destruct (decide (header_key raw = k)) as [<-|]; [|apply Hr].
    intros _. unfold header_key. split; [|apply lower_no_upper].
    rewrite lower_empty. by apply string_empty_false.
Qed.

Lemma addHeaderLines_keys_ok lines :
  ∀ r, keys_ok (headers r) → keys_ok (headers (addHeaderLines r lines)).
Proof.
  unfold addHeaderLines.
  induction lines as [|l lines IH]; intros r Hr; cbn [fold_left]; [done|].
  by apply IH, addHeaderLine_keys_ok.
Qed.

(** C10. A line that is no status line is dropped, the response left as it
    was, when it has no colon and also when the text before its first colon
    trims to the empty string; and after any sequence of lines fed to a fresh
    accumulator every key of the header mapping is non-empty and holds no
    upper-case letter. *)
Theorem C10_dropped_lines_and_keys
    (r : ResponseData) (raw : string) (lines : list string) (k : string) :
  (is_status_line raw = false →
   find_char ":" raw = None ∨ trim (before_colon raw) = EmptyString →
   addHeaderLine r raw = r) ∧
  (is_Some (headers (addHeaderLines ResponseData_init lines) !! k) →
   k ≠ EmptyString ∧ no_upper k = true ∧ lower k = k).
Proof.
  split.
  - intros Hs H. rewrite addHeaderLine_header by done.
    destruct (find_char ":" raw) eqn:F; [|done].
    destruct H as [H|H]; [done|]. by rewrite H.
  - intros H.
    pose proof (addHeaderLines_keys_ok lines ResponseData_init keys_ok_empty k H)
      as [Hne Hup].
    repeat split; try done.
    clear -Hup. induction k as [|c k IH]; [done|].
    unfold no_upper, lower in *. simpl in *.
    apply andb_true_iff in Hup as [Hc Hk]. apply negb_true_iff in Hc.
    unfold tolower. rewrite Hc. f_equal. by apply IH.
Qed.

Lemma C10_witness :
  addHeaderLine ResponseData_init ("garbage without colon" +:+ CRLF) = ResponseData_init ∧
  addHeaderLine ResponseData_init ("  : orphan value" +:+ CRLF) = ResponseData_init ∧
  no_upper "content-type" = true.
Proof.
  split; [|split].
  - apply (C10_dropped_lines_and_keys ResponseData_init
             ("garbage without colon" +:+ CRLF) [] EmptyString);
      [reflexivity | left; reflexivity].
  - apply (C10_dropped_lines_and_keys ResponseData_init
             ("  : orphan value" +:+ CRLF) [] EmptyString);
      [reflexivity | right; reflexivity].
  - apply (C10_dropped_lines_and_keys ResponseData_init EmptyString
             ["HTTP/1.1 200 OK" +:+ CRLF; "Content-Type: text/html" +:+ CRLF]
             "content-type").
    vm_compute. eauto.
Defined.

(** ** The multipart encoder *)

Lemma list_byte_of_string_app a b :
  String.list_byte_of_string (a +:+ b) =
  String.list_byte_of_string a ++ String.list_byte_of_string b.
Proof.
  unfold String.list_byte_of_string.
  induction a as [|c a IH]; simpl; [done|]. by rewrite IH.
Qed.

Section MultipartFacts.
Variable Utf8Value : Value → string.

Lemma flushDataPart_app name filename contentType data textVal isFile out :
  flushDataPart name filename contentType data textVal isFile out =
  out ++ flushDataPart name filename contentType data textVal isFile [].
Proof.
  unfold flushDataPart, vecAppend, vecAppendRaw.
  destruct isFile, (has_bytes data); cbn [app]; by rewrite <- ?app_assoc.
Qed.

Lemma emitField_app name v out :
  emitField Utf8Value name v out = out ++ emitField Utf8Value name v [].
Proof.
  unfold emitField.
  repeat match goal with
         | |- context [if ?c then _ else _] => destruct c
         | |- context [let '(_, _) := ?p in _] => destruct p
         end; apply flushDataPart_app.
Qed.

Lemma multipartStep_app formObj b out name :
  multipartStep Utf8Value formObj b out name =
  out ++ delimiter b ++ emitField Utf8Value name (Get formObj (c_str name)) [].
Proof.
  unfold multipartStep, vecAppend. rewrite emitField_app.
  by rewrite <- app_assoc.
Qed.

Lemma multipart_fold formObj b names out :
  fold_left (multipartStep Utf8Value formObj b) names out =
  out ++ concat ((λ name, delimiter b ++
                            emitField Utf8Value name (Get formObj (c_str name)) [])
                 <$> names).
Proof.
  revert out. induction names as [|n names IH]; intros out; cbn [fold_left fmap list_fmap concat].
  - by rewrite app_nil_r.
  - rewrite IH, multipartStep_app. by rewrite <- !app_assoc.
Qed.

Lemma buildMultipart_render formObj out draws :
  buildMultipartFromNapi Utf8Value formObj out draws =
  (out ++ render (randomBoundary draws) (multipart_parts Utf8Value formObj),
   randomBoundary draws).
Proof.
  unfold buildMultipartFromNapi, render, multipart_parts, vecAppend.
  rewrite multipart_fold, <- list_fmap_compose, <- app_assoc. reflexivity.
Qed.

(** C7. Whatever the form, the empty one included, and whatever boundary
    is drawn, the body the encoder returns ends with the closing marker
    made of two dashes, the boundary it returns, two dashes and CRLF; for
    the empty form the marker is all it appends. *)
Theorem C7_closing_marker (formObj : Object) (out : list byte) (draws : N * N * N) :
  let '(outBody, outBoundary) := buildMultipartFromNapi Utf8Value formObj out draws in
  let '(emptyBody, emptyBoundary) := buildMultipartFromNapi Utf8Value [] out draws in
  closing_marker outBoundary `suffix_of` outBody ∧
  emptyBody = out ++ closing_marker emptyBoundary.
Proof.
  rewrite !buildMultipart_render. split; [|done].
  unfold render. rewrite app_assoc. by eexists.
Qed.

(** C8. The body is the rendering, with the boundary drawn, of parts that
    do not depend on the boundary: one per property name of the form, in
    enumeration order. Two encodings of one form are therefore the same
    rendering of the same parts, each with its own boundary, and when the
    two boundaries are equal the two bodies are. *)
Theorem C8_same_parts_any_boundary (formObj : Object) (draws1 draws2 : N * N * N) :
  let parts := multipart_parts Utf8Value formObj in
  let '(body1, boundary1) := buildMultipartFromNapi Utf8Value formObj [] draws1 in
  let '(body2, boundary2) := buildMultipartFromNapi Utf8Value formObj [] draws2 in
  body1 = render boundary1 parts ∧
  body2 = render boundary2 parts ∧
  parts.*1 = GetPropertyNames formObj ∧
  (boundary1 = boundary2 → body1 = body2).
Proof.
  rewrite !buildMultipart_render. cbn [app]. repeat split.
  - unfold multipart_parts. generalize (GetPropertyNames formObj).
    intros names. induction names as [|n names IH]; [done|].
    rewrite !fmap_cons. cbn [fst]. f_equal. exact IH.
  - intros H. by rewrite H.
Qed.

(** A buffer given as the field value is always written as a file part,
    whatever its length. *)
Lemma emitField_buffer name data :
  emitField Utf8Value name (VBuffer data) [] =
  String.list_byte_of_string
    ("Content-Disposition: form-data; name=" +:+ DQUOTE +:+ name +:+ DQUOTE +:+
     "; filename=" +:+ DQUOTE +:+ "blob" +:+ DQUOTE +:+ CRLF +:+
     "Content-Type: application/octet-stream" +:+ CRLF +:+ CRLF)
  ++ data ++ String.list_byte_of_string CRLF.
Proof.
  unfold emitField, flushDataPart, vecAppend, vecAppendRaw.
  cbn [IsBuffer AsBuffer string_empty from_option id].
  destruct data; cbn [has_bytes from_option id];
    rewrite !list_byte_of_string_app, <- ?app_assoc; reflexivity.
Qed.

(** A descriptor whose [value] is an empty buffer is written as a text
    part with an empty text: its filename and content type are lost. *)
Lemma emitField_descriptor_empty_buffer name c filename contentType :
  emitField Utf8Value name
    (VObject c [("value", VBuffer []); ("filename", filename);
                ("contentType", contentType)]) [] =
  String.list_byte_of_string
    ("Content-Disposition: form-data; name=" +:+ DQUOTE +:+ name +:+ DQUOTE +:+
     CRLF +:+ CRLF)
  ++ String.list_byte_of_string CRLF.
Proof.
  unfold emitField, flushDataPart, vecAppend. cbn -[String.append].
  rewrite !list_byte_of_string_app, <- ?app_assoc. reflexivity.
Qed.

End MultipartFacts.

Lemma C7_witness :
  (buildMultipartFromNapi plain_text sample_form [] (10, 11, 255)%N).2
    = "----LioraFormBoundaryabff" ∧
  closing_marker "----LioraFormBoundaryabff" `suffix_of`
    (buildMultipartFromNapi plain_text sample_form [] (10, 11, 255)%N).1 ∧
  (buildMultipartFromNapi plain_text [] [] (10, 11, 255)%N).1
    = bytes ("------LioraFormBoundaryabff--" +:+ CRLF).
Proof.
  pose proof (C7_closing_marker plain_text sample_form [] (10, 11, 255)%N) as H.
  destruct (buildMultipartFromNapi plain_text sample_form [] (10, 11, 255)%N)
    as [outBody outBoundary] eqn:E.
  destruct (buildMultipartFromNapi plain_text [] [] (10, 11, 255)%N)
    as [emptyBody emptyBoundary] eqn:E0.
  assert (outBoundary = "----LioraFormBoundaryabff") as ->.
  { apply (f_equal snd) in E. vm_compute in E. by rewrite <- E. }
  assert (emptyBoundary = "----LioraFormBoundaryabff") as ->.
  { apply (f_equal snd) in E0. vm_compute in E0. by rewrite <- E0. }
  destruct H as [H1 H2]. cbn [fst snd]. split; [done|]. split; [exact H1|].
  rewrite H2. vm_compute. reflexivity.
Defined.

Lemma C8_witness :
  let parts :=
    [("file", bytes ("Content-Disposition: form-data; name=" +:+ DQUOTE +:+ "file" +:+ DQUOTE
                     +:+ "; filename=" +:+ DQUOTE +:+ "a.txt" +:+ DQUOTE +:+ CRLF
                     +:+ "Content-Type: text/plain" +:+ CRLF +:+ CRLF +:+ "hi" +:+ CRLF));
     ("name", bytes ("Content-Disposition: form-data; name=" +:+ DQUOTE +:+ "name" +:+ DQUOTE
                     +:+ CRLF +:+ CRLF +:+ "x" +:+ CRLF))] in
  (buildMultipartFromNapi plain_text sample_form [] (1, 2, 3)%N).1
    = render "----LioraFormBoundary123" parts ∧
  (buildMultipartFromNapi plain_text sample_form [] (4, 5, 6)%N).1
    = render "----LioraFormBoundary456" parts.
Proof.
  intros parts.
  pose proof (C8_same_parts_any_boundary plain_text sample_form (1, 2, 3)%N (4, 5, 6)%N) as H.
  destruct (buildMultipartFromNapi plain_text sample_form [] (1, 2, 3)%N)
    as [body1 boundary1] eqn:E1.
  destruct (buildMultipartFromNapi plain_text sample_form [] (4, 5, 6)%N)
    as [body2 boundary2] eqn:E2.
  assert (boundary1 = "----LioraFormBoundary123") as ->.
  { apply (f_equal snd) in E1. vm_compute in E1. by rewrite <- E1. }
  assert (boundary2 = "----LioraFormBoundary456") as ->.
  { apply (f_equal snd) in E2. vm_compute in E2. by rewrite <- E2. }
  destruct H as (H1 & H2 & _). cbn [fst]. rewrite H1, H2.
  split; vm_compute; reflexivity.
Defined.

(** C6 (the code departs from it). A descriptor whose [value] is a byte
    buffer of length zero, with a filename and a content type, is written
    without filename and without Content-Type header, as a text part with an
    empty text; the same empty buffer given directly as the field value is
    written as a file part. *)
Theorem C6_empty_descriptor_buffer_loses_file_headers :
  let descriptor := VObject false [("value", VBuffer []);
                                   ("filename", VPrimitive "a.txt");
                                   ("contentType", VPrimitive "text/plain")] in
  emitField plain_text "f" descriptor [] =
    String.list_byte_of_string
      ("Content-Disposition: form-data; name=" +:+ DQUOTE +:+ "f" +:+ DQUOTE +:+
       CRLF +:+ CRLF +:+ CRLF) ∧
  emitField plain_text "f" (VBuffer []) [] =
    String.list_byte_of_string
      ("Content-Disposition: form-data; name=" +:+ DQUOTE +:+ "f" +:+ DQUOTE +:+
       "; filename=" +:+ DQUOTE +:+ "blob" +:+ DQUOTE +:+ CRLF +:+
       "Content-Type: application/octet-stream" +:+ CRLF +:+ CRLF +:+ CRLF).
Proof. split; vm_compute; reflexivity. Qed.

(** ** The sinks and the transfer *)

Lemma writeBody_abort w chunk ok : abort_ w = true → writeBody w chunk ok = (w, 0).
Proof. intros H. unfold writeBody. by rewrite H. Qed.

Lemma onProgress_abort w p ok : abort_ w = true → onProgress w p ok = (w, 1).
Proof. intros H. unfold onProgress. by rewrite H. Qed.

Lemma writeHeader_result w line :
  writeHeader w line =
  (set_resp w (addHeaderLine (resp_ w) line), Z.of_nat (String.length line)).
Proof. reflexivity. Qed.

Lemma writeBody_same w chunk ok :
  req (writeBody w chunk ok).1 = req w ∧
  abort_ (writeBody w chunk ok).1 = abort_ w ∧
  headers (resp_ (writeBody w chunk ok).1) = headers (resp_ w) ∧
  statusText (resp_ (writeBody w chunk ok).1) = statusText (resp_ w).
Proof.
  unfold writeBody.
  repeat match goal with
         | |- context [if ?c then _ else _] => destruct c eqn:?
         | |- context [match ?x with Some _ => _ | None => _ end] => destruct x
         end; done.
Qed.

Lemma onProgress_same w p ok :
  req (onProgress w p ok).1 = req w ∧
  abort_ (onProgress w p ok).1 = abort_ w ∧
  resp_ (onProgress w p ok).1 = resp_ w.
Proof.
  unfold onProgress.
  repeat match goal with
         | |- context [if ?c then _ else _] => destruct c eqn:?
         end; done.
Qed.

Lemma perform_step_req s e : req (perform_step s e).1 = req s.1.
Proof.
  destruct s as [w [rc|]]; cbn [perform_step fst].
  - by destruct (is_abort e).
  - destruct e as [|line|chunk ok|p ok]; try done.
    + pose proof (writeBody_same w chunk ok) as (H & _).
      by destruct (writeBody w chunk ok).
    + destruct (wantProgress_ (req w)); [|done].
      pose proof (onProgress_same w p ok) as (H & _).
      by destruct (onProgress w p ok).
Qed.

Lemma perform_step_abort s e :
  abort_ s.1 = true ∨ e = EvAbort → abort_ (perform_step s e).1 = true.
Proof.
  destruct s as [w [rc|]]; cbn [perform_step fst].
  - intros [H| ->]; [by destruct (is_abort e)|done].
  - intros [H| ->]; [|done].
    destruct e as [|line|chunk ok|p ok]; try done.
    + by rewrite writeBody_abort.
    + destruct (wantProgress_ (req w)); [|done]. by rewrite onProgress_abort.
Qed.

Lemma perform_steps_abort evs :
  ∀ s, abort_ s.1 = true ∨ EvAbort ∈ evs →
       abort_ (fold_left perform_step evs s).1 = true.
Proof.
  induction evs as [|e evs IH]; intros s H; cbn [fold_left].
  - destruct H as [H|H]; [done|]. by apply elem_of_nil in H.
  - apply IH. destruct H as [H|H].
    + left. apply perform_step_abort. by left.
    + apply elem_of_cons in H as [<-|H]; [|by right].
      left. apply perform_step_abort. by right.
Qed.

Lemma perform_steps_stopped evs w rc :
  (fold_left perform_step evs (w, Some rc)).2 = Some rc.
Proof.
  revert w. induction evs as [|e evs IH]; intros w; cbn [fold_left]; [done|].
  cbn [perform_step]. apply IH.
Qed.

(** C1. Whenever the abort function runs while [Execute] is in its perform
    call, or before it reads the flag, the promise is rejected with the
    message "request aborted", whatever the transport reports (CURLE_OK
    included); that message is none of the transport-error messages; and a
    call of the body sink that finds the flag set returns 0 and leaves the
    worker, the response body with it, as it was. *)
Theorem C1_abort_is_rejection
    (curl_easy_strerror : Z → string) (w : FetchWorker) (t : Transport) :
  easy_init_ok t = true →
  slist_append_ok t = true →
  EvAbort ∈ events t →
  settle curl_easy_strerror w t = Rejected ABORTED ∧
  (∀ r, settle curl_easy_strerror w t ≠ Resolved r) ∧
  (∀ rc, ABORTED ≠ "curl perform error: " +:+ curl_easy_strerror rc) ∧
  (∀ w' chunk ok, abort_ w' = true →
     writeBody w' chunk ok = (w', 0) ∧
     body (resp_ (writeBody w' chunk ok).1) = body (resp_ w')).
Proof.
  intros Hinit Hslist Hev.
  assert (settle curl_easy_strerror w t = Rejected ABORTED) as Hs.
  { unfold settle, Execute, perform. rewrite Hinit, Hslist. cbn [negb andb].
    pose proof (perform_steps_abort (events t) (w, None) (or_intror Hev)) as Ha.
    unfold perform_steps. destruct (fold_left perform_step (events t) (w, None)) as [w1 st].
    cbn [fst] in Ha. by rewrite Ha. }
  rewrite Hs. split; [done|]. split; [done|]. split; [done|].
  intros w' chunk ok Hw. by rewrite writeBody_abort.
Qed.

Lemma size_nonneg l : 0 ≤ size l.
Proof. unfold size. lia. Qed.

Lemma size_app a b : size (a ++ b) = size a + size b.
Proof. unfold size. rewrite length_app. lia. Qed.

Lemma to_long_long_small z :
  0 ≤ z ≤ vector_max_size → to_long_long (wrap_size_t z) = z.
Proof.
  unfold vector_max_size, to_long_long, wrap_size_t. intros H.
  rewrite Z.mod_small by lia.
  destruct (z <? 2 ^ 63) eqn:E; [done|]. apply Z.ltb_ge in E. lia.
Qed.

Section SizeCap.
Variables (w : FetchWorker) (K : Z).
Hypothesis cap_set : maxBodySize_ (req w) = K.
Hypothesis cap_nonneg : 0 ≤ K.
Hypothesis buffered : streaming_ (req w) && tsfnData_ (req w) = false.

Lemma writeBody_within_cap chunk ok :
  size (body (resp_ w)) ≤ K →
  size (body (resp_ (writeBody w chunk ok).1)) ≤ K.
Proof.
  intros Hb. unfold writeBody. rewrite buffered, cap_set.
  destruct (abort_ w); [done|].
  destruct ((K >=? 0) && _) eqn:Hc; [done|].
  unfold vector_insert_end.
  destruct (ok && _) eqn:Hi; [|done]. cbn [fst resp_ set_downloaded set_resp set_body body].
  apply andb_true_iff in Hi as [_ Hi]. apply Z.leb_le in Hi.
  pose proof (size_nonneg (body (resp_ w))). pose proof (size_nonneg chunk).
  rewrite to_long_long_small in Hc by lia.
  rewrite size_app.
  apply andb_false_iff in Hc as [Hc|Hc].
  - rewrite Z.geb_leb in Hc. apply Z.leb_gt in Hc. lia.
  - rewrite Z.gtb_ltb in Hc. apply Z.ltb_ge in Hc. lia.
Qed.

Lemma writeBody_over_cap chunk ok :
  size (body (resp_ w)) + size chunk > K →
  writeBody w chunk ok = (w, 0).
Proof.
  intros Hb. unfold writeBody. rewrite buffered, cap_set.
  destruct (abort_ w); [done|].
  destruct ((K >=? 0) && _) eqn:Hc; [done|].
  unfold vector_insert_end.
  destruct (ok && _) eqn:Hi; [|done]. exfalso.
  apply andb_true_iff in Hi as [_ Hi]. apply Z.leb_le in Hi.
  pose proof (size_nonneg (body (resp_ w))). pose proof (size_nonneg chunk).
  rewrite to_long_long_small in Hc by lia.
  apply andb_false_iff in Hc as [Hc|Hc].
  - rewrite Z.geb_leb in Hc. apply Z.leb_gt in Hc. lia.
  - rewrite Z.gtb_ltb in Hc. apply Z.ltb_ge in Hc. lia.
Qed.
End SizeCap.

Lemma perform_step_within_cap K s e :
  maxBodySize_ (req s.1) = K → 0 ≤ K →
  streaming_ (req s.1) && tsfnData_ (req s.1) = false →
  size (body (resp_ s.1)) ≤ K →
  size (body (resp_ (perform_step s e).1)) ≤ K.
Proof.
  destruct s as [w [rc|]]; cbn [perform_step fst]; intros HK H0 Hb Hs.
  - by destruct (is_abort e).
  - destruct e as [|line|chunk ok|p ok]; try done.
    + cbn [writeHeader fst resp_ set_resp].
      destruct (is_status_line line) eqn:E.
      * destruct (addHeaderLine_status_line (resp_ w) line E) as (_ & -> & _). done.
      * rewrite addHeaderLine_header by done.
        by repeat match goal with |- context [match ?x with _ => _ end] => destruct x end.
    + pose proof (writeBody_within_cap w K HK H0 Hb chunk ok Hs).
      by destruct (writeBody w chunk ok).
    + destruct (wantProgress_ (req w)); [|done].
      pose proof (onProgress_same w p ok) as (_ & _ & H).
      destruct (onProgress w p ok). cbn [fst] in *. by rewrite H.
Qed.

Lemma perform_steps_within_cap K evs :
  ∀ s, maxBodySize_ (req s.1) = K → 0 ≤ K →
       streaming_ (req s.1) && tsfnData_ (req s.1) = false →
       size (body (resp_ s.1)) ≤ K →
       let s' := fold_left perform_step evs s in
       req s'.1 = req s.1 ∧ size (body (resp_ s'.1)) ≤ K.
Proof.
  induction evs as [|e evs IH]; intros s HK H0 Hb Hs; cbn [fold_left]; [done|].
  pose proof (perform_step_req s e) as Hr.
  destruct (IH (perform_step s e)) as [Hr' Hs']; rewrite ?Hr; try done.
  - by apply perform_step_within_cap.
  - cbn zeta. by rewrite Hr', Hr.
Qed.

(** C3. With [maxBodySize] set to K, K at least 0, and no streaming consumer,
    the response body, starting within K, holds at most K bytes after any
    sequence of events of the transfer; a call of the body sink whose chunk
    would take the body past K returns 0 and leaves the worker, the body with
    it, as it was; and when that call happens in a running transfer, the
    perform call ends with a write error and the promise is rejected. *)
Theorem C3_body_within_cap
    (curl_easy_strerror : Z → string) (w : FetchWorker) (K : Z)
    (evs post : list event) (chunk : list byte) (ok : bool) (t : Transport) :
  maxBodySize_ (req w) = K →
  0 ≤ K →
  streaming_ (req w) && tsfnData_ (req w) = false →
  size (body (resp_ w)) ≤ K →
  let '(w1, stopped) := perform_steps w evs in
  size (body (resp_ w1)) ≤ K ∧
  (size (body (resp_ w1)) + size chunk > K →
     writeBody w1 chunk ok = (w1, 0) ∧
     (stopped = None → events t = evs ++ EvBody chunk ok :: post →
        (perform w (events t) (rc_end t)).2 = CURLE_WRITE_ERROR ∧
        ∃ message, settle curl_easy_strerror w t = Rejected message)).
Proof.
  intros HK H0 Hb Hs.
  pose proof (perform_steps_within_cap K evs (w, None) HK H0 Hb Hs) as [Hr Hs1].
  unfold perform_steps. destruct (fold_left perform_step evs (w, None)) as [w1 stopped] eqn:E.
  cbn [fst] in *. split; [done|]. intros Hover.
  assert (writeBody w1 chunk ok = (w1, 0)) as Hw.
  { apply (writeBody_over_cap w1 K); by rewrite ?Hr. }
  split; [done|]. intros -> Hev.
  assert ((size chunk =? 0) = false) as Hn.
  { apply Z.eqb_neq. lia. }
  assert ((perform_steps w (events t)).2 = Some CURLE_WRITE_ERROR) as Hp.
  { unfold perform_steps. rewrite Hev, fold_left_app, E. cbn [fold_left perform_step].
    rewrite Hw, Z.eqb_sym, Hn. apply perform_steps_stopped. }
  assert ((perform w (events t) (rc_end t)).2 = CURLE_WRITE_ERROR) as Hrc.
  { unfold perform. destruct (perform_steps w (events t)) as [w2 st].
    cbn [snd] in *. by subst. }
  split; [done|].
  unfold settle, Execute.
  destruct (negb (easy_init_ok t)); [by eexists|].
  destruct (negb (slist_append_ok t) && _); [by eexists|].
  destruct (perform w (events t) (rc_end t)) as [w2 rc]. cbn [snd] in Hrc. subst rc.
  destruct (abort_ w2); by eexists.
Qed.

(** ** Request headers *)

Lemma default_strings_distinct :
  UA_DEFAULT ≠ AE_DEFAULT ∧ UA_DEFAULT ≠ CONN_DEFAULT ∧ UA_DEFAULT ≠ EXPECT_DEFAULT ∧
  AE_DEFAULT ≠ CONN_DEFAULT ∧ AE_DEFAULT ≠ EXPECT_DEFAULT ∧ CONN_DEFAULT ≠ EXPECT_DEFAULT.
Proof. repeat split; discriminate. Qed.

Lemma defaultHeaders_elem r :
  (UA_DEFAULT ∈ defaultHeaders r ↔ haveUserUA_ r = false) ∧
  (AE_DEFAULT ∈ defaultHeaders r ↔ haveAcceptEnc_ r = false ∧ decompress_ r = true) ∧
  (CONN_DEFAULT ∈ defaultHeaders r ↔ haveConn_ r = false) ∧
  (EXPECT_DEFAULT ∈ defaultHeaders r ↔ haveExpect_ r = false).
Proof.
  destruct default_strings_distinct as (? & ? & ? & ? & ? & ?).
  unfold defaultHeaders.
  destruct (haveUserUA_ r), (haveAcceptEnc_ r), (decompress_ r), (haveConn_ r),
    (haveExpect_ r); cbn [negb andb app];
    rewrite ?elem_of_cons, ?elem_of_nil; intuition congruence.
Qed.

Section RequestHeaders.
Variable Utf8Value : Value → string.
Variable Int32Value : Value → Z.
Variable Int64Value : Value → Z.
Variable BooleanValue : Value → bool.
Variable BufferObject : list byte → Object.

(** What the constructor and [Execute] do with the caller's headers. A
    default header is put on the list exactly when the caller's mapping has
    neither of the two spellings the constructor looks up (and, for
    Accept-Encoding, when decompression is on); the caller's lines come
    after the defaults, each cut at its first NUL. *)
Lemma defaults_by_exact_spelling
    (url : string) (opts : Object) (c : bool) (h : Object) (draws : N * N * N) :
  lookup_prop opts "headers" = Some (VObject c h) →
  let r := req (FetchWorker_new Utf8Value Int32Value Int64Value BooleanValue BufferObject
                  url opts draws) in
  (UA_DEFAULT ∈ defaultHeaders r ↔
     Has h "User-Agent" = false ∧ Has h "user-agent" = false) ∧
  (AE_DEFAULT ∈ defaultHeaders r ↔
     (Has h "Accept-Encoding" = false ∧ Has h "accept-encoding" = false) ∧
     decompress_ r = true) ∧
  (CONN_DEFAULT ∈ defaultHeaders r ↔
     Has h "Connection" = false ∧ Has h "connection" = false) ∧
  (EXPECT_DEFAULT ∈ defaultHeaders r ↔
     Has h "Expect" = false ∧ Has h "expect" = false) ∧
  requestHeaders r =
    defaultHeaders r ++ (c_str <$> multipartHeader r) ++
    (c_str <$> headerKVs Utf8Value h).
Proof.
  intros Hh r.
  destruct (defaultHeaders_elem r) as (-> & -> & -> & ->).
  assert (Has opts "headers" && IsObject (Get opts "headers") = true) as Hhave.
  { unfold Has, Get. by rewrite Hh. }
  assert (ObjectOf BufferObject (Get opts "headers") = h) as Hobj.
  { unfold Get. by rewrite Hh. }
  unfold requestHeaders. subst r.
  cbn [req FetchWorker_new haveUserUA_ haveAcceptEnc_ haveConn_ haveExpect_ headersKVs_].
  rewrite Hhave, Hobj. cbn [andb].
  rewrite !orb_false_iff. done.
Qed.

End RequestHeaders.

Lemma C1_witness :
  settle strerror_of (new_worker []) aborted_transfer = Rejected ABORTED ∧
  (perform (new_worker []) (events aborted_transfer) CURLE_OK).2 = CURLE_OK.
Proof.
  split; [|vm_compute; reflexivity].
  apply (C1_abort_is_rejection strerror_of (new_worker []) aborted_transfer).
  - reflexivity.
  - reflexivity.
  - cbn [events aborted_transfer]. rewrite !elem_of_cons. tauto.
Defined.

(** C2 (the code departs from it). With the cancellation token set, the
    body sink returns 0 and the progress sink 1, but the header sink takes
    the line, files it, and returns its length: the transport is told to go
    on, and the next header line is taken as well. *)
Theorem C2_header_sink_ignores_abort :
  let w := abort (new_worker []) in
  let line := "X-Late: yes" +:+ CRLF in
  abort_ w = true ∧
  writeBody w (bytes "data") true = (w, 0) ∧
  onProgress w (mkProgress 0 0 0 0) true = (w, 1) ∧
  (writeHeader w line).2 = 13 ∧
  headers (resp_ (writeHeader w line).1) !! "x-late" = Some ["yes"] ∧
  (perform_steps w [EvHeader line; EvHeader line]).2 = None.
Proof. vm_compute. repeat split; reflexivity. Qed.

Lemma C3_witness :
  let '(w1, stopped) := perform_steps capped_worker [EvBody (bytes "abc") true] in
  body (resp_ w1) = bytes "abc" ∧ stopped = None ∧
  writeBody w1 (bytes "de") true = (w1, 0) ∧
  ∃ message,
    settle strerror_of capped_worker
      {| easy_init_ok := true; slist_append_ok := true;
         events := [EvBody (bytes "abc") true; EvBody (bytes "de") true];
         rc_end := CURLE_OK; response_code := 200; effective_url := None |}
    = Rejected message.
Proof.
  assert (H := C3_body_within_cap strerror_of capped_worker 4
                [EvBody (bytes "abc") true] [] (bytes "de") true
                {| easy_init_ok := true; slist_append_ok := true;
                   events := [EvBody (bytes "abc") true; EvBody (bytes "de") true];
                   rc_end := CURLE_OK; response_code := 200; effective_url := None |}
                eq_refl).
  assert (0 ≤ 4) as H0 by lia.
  assert (size (body (resp_ capped_worker)) ≤ 4) as Hs by (vm_compute; discriminate).
  specialize (H H0 eq_refl Hs).
  destruct (perform_steps capped_worker [EvBody (bytes "abc") true]) as [w1 stopped] eqn:E.
  vm_compute in E. injection E as <- <-.
  destruct H as [_ H].
  assert (3 + size (bytes "de") > 4) as Hover by reflexivity.
  destruct (H Hover) as [Hw Hm].
  destruct (Hm eq_refl eq_refl) as [_ Hr].
  split; [reflexivity|]. split; [reflexivity|]. split; [exact Hw | exact Hr].
Defined.

(** C4 (the code departs from it). The caller's mapping has the key
    USER-AGENT, which matches User-Agent when case is ignored; the default
    User-Agent line is put on the list all the same, so the request carries
    two User-Agent lines, the default and the caller's. The constructor's
    two look-ups do suppress the default for the spellings User-Agent and
    user-agent. *)
Theorem C4_other_casing_keeps_default :
  let request_of name :=
    req (new_worker [("headers", VObject false [(name, VPrimitive "mine/1.0")])]) in
  has_key_ci [("USER-AGENT", VPrimitive "mine/1.0")] "User-Agent" = true ∧
  requestHeaders (request_of "USER-AGENT") =
    [UA_DEFAULT; AE_DEFAULT; CONN_DEFAULT; EXPECT_DEFAULT; "USER-AGENT: mine/1.0"] ∧
  requestHeaders (request_of "User-Agent") =
    [AE_DEFAULT; CONN_DEFAULT; EXPECT_DEFAULT; "User-Agent: mine/1.0"] ∧
  requestHeaders (request_of "user-agent") =
    [AE_DEFAULT; CONN_DEFAULT; EXPECT_DEFAULT; "user-agent: mine/1.0"].
Proof. vm_compute. repeat split; reflexivity. Qed.

(** ** The status text *)

Lemma addHeaderLine_statusText r raw :
  statusText (addHeaderLine r raw) = default (statusText r) (reasonPhrase raw).
Proof.
  unfold reasonPhrase. destruct (is_status_line raw) eqn:E.
  - by destruct (addHeaderLine_status_line r raw E) as (_ & _ & _ & ->).
  - rewrite addHeaderLine_header by done.
    by repeat match goal with |- context [match ?x with _ => _ end] => destruct x end.
Qed.

Lemma perform_step_no_reason s e :
  no_reason e → statusText (resp_ s.1) = EmptyString →
  statusText (resp_ (perform_step s e).1) = EmptyString.
Proof.
  destruct s as [w [rc|]]; cbn [perform_step fst]; intros He Hs.
  - by destruct (is_abort e).
  - destruct e as [|line|chunk ok|p ok]; try done.
    + cbn [writeHeader fst resp_ set_resp]. rewrite addHeaderLine_statusText.
      destruct He as [-> | ->]; done.
    + pose proof (writeBody_same w chunk ok) as (_ & _ & _ & H).
      destruct (writeBody w chunk ok). cbn [fst] in *. by rewrite H.
    + destruct (wantProgress_ (req w)); [|done].
      pose proof (onProgress_same w p ok) as (_ & _ & H).
      destruct (onProgress w p ok). cbn [fst] in *. by rewrite H.
Qed.

Lemma perform_steps_no_reason evs :
  Forall no_reason evs →
  ∀ s, statusText (resp_ s.1) = EmptyString →
       statusText (resp_ (fold_left perform_step evs s).1) = EmptyString.
Proof.
  induction 1 as [|e evs He _ IH]; intros s Hs; cbn [fold_left]; [done|].
  by apply IH, perform_step_no_reason.
Qed.

(** C9. When [Execute] succeeds, the status is the transport's response
    code; if the status text left by the header lines is empty, which is the
    case when the worker started with none and no status line carried a
    reason phrase, the text is the table's phrase for that code; a non-empty
    text is kept. The table has the ten listed entries and gives the empty
    text for every other code. *)
Theorem C9_status_text
    (curl_easy_strerror : Z → string) (w : FetchWorker) (t : Transport) (r : Response) :
  settle curl_easy_strerror w t = Resolved r →
  let captured := statusText (resp_ (perform w (events t) (rc_end t)).1) in
  r_status r = response_code t ∧
  (captured = EmptyString → r_statusText r = defaultStatusText (response_code t)) ∧
  (captured ≠ EmptyString → r_statusText r = captured) ∧
  (statusText (resp_ w) = EmptyString → Forall no_reason (events t) →
     captured = EmptyString) ∧
  (∀ code text, (code, text) ∈ STATUS_TABLE → defaultStatusText code = text) ∧
  (∀ code, code ∉ STATUS_TABLE.*1 → defaultStatusText code = EmptyString).
Proof.
  intros Hs captured.
  assert (r_status r = response_code t ∧
          r_statusText r = if string_empty captured
                           then defaultStatusText (response_code t) else captured)
    as [H1 H2].
  { subst captured. unfold settle, Execute in Hs.
    destruct (negb (easy_init_ok t)); [done|].
    destruct (negb (slist_append_ok t) && _); [done|].
    destruct (perform w (events t) (rc_end t)) as [w1 rc]. cbn [fst].
    destruct (abort_ w1); [done|]. destruct (negb (rc =? CURLE_OK)); [done|].
    injection Hs as <-. done. }
  split; [done|]. split; [|split; [|split; [|split]]].
  - intros E. by rewrite H2, E.
  - intros E. rewrite H2. by destruct captured.
  - intros Hw Hev. subst captured. unfold perform, perform_steps.
    pose proof (perform_steps_no_reason (events t) Hev (w, None) Hw) as H.
    by destruct (fold_left perform_step (events t) (w, None)).
  - intros code text H. unfold STATUS_TABLE in H.
    rewrite !elem_of_cons, elem_of_nil in H.
    repeat destruct H as [H|H]; try done; by injection H as -> ->.
  - intros code H. cbn in H. rewrite !not_elem_of_cons in H.
    destruct H as (? & ? & ? & ? & ? & ? & ? & ? & ? & ? & _).
    unfold defaultStatusText.
    repeat match goal with
           | |- context [?a =? ?b] => destruct (Z.eqb_spec a b); [done|]
           end.
    done.
Qed.

Lemma C9_witness :
  ∃ r, settle strerror_of (new_worker []) bare_status_transfer = Resolved r ∧
       r_status r = 404 ∧ r_statusText r = "Not Found".
Proof.
  set (r := OnOK (Execute strerror_of (new_worker []) bare_status_transfer).1).
  assert (settle strerror_of (new_worker []) bare_status_transfer = Resolved r) as Hs
    by (vm_compute; reflexivity).
  destruct (C9_status_text strerror_of (new_worker []) bare_status_transfer r Hs)
    as (Hst & Hempty & _ & Hcap & _).
  exists r. split; [exact Hs|]. split; [by rewrite Hst|].
  rewrite Hempty; [reflexivity|]. apply Hcap; [reflexivity|].
  unfold bare_status_transfer. cbn [events].
  repeat (apply List.Forall_cons; [vm_compute; auto|]). apply List.Forall_nil.
Defined.

(** * Further properties of the code *)

(** ** [trim] and [lower] *)

Lemma append_cons c a b : String c a +:+ b = String c (a +:+ b).
Proof. reflexivity. Qed.

Lemma take_drop_while p s : s = take_while p s +:+ drop_while p s.
Proof.
  induction s as [|c s IH]; [done|]. simpl.
  destruct (p c); [|done]. rewrite append_cons. f_equal. exact IH.
Qed.

Lemma take_while_forall p s : string_forall p (take_while p s) = true.
Proof.
  induction s as [|c s IH]; [done|]. simpl.
  destruct (p c) eqn:E; simpl; [by rewrite E|done].
Qed.

Lemma drop_while_head p s c :
  string_head (drop_while p s) = Some c → p c = false.
Proof.
  induction s as [|x s IH]; [done|]. simpl.
  destruct (p x) eqn:E; [done|]. simpl. by intros [= <-].
Qed.

Lemma drop_while_end_split p s :
  ∃ b, s = drop_while_end p s +:+ b ∧ string_forall p b = true.
Proof.
  induction s as [|c s (b & Hs & Hb)]; [by exists EmptyString|]. simpl.
  destruct (string_empty (drop_while_end p s)) eqn:E, (p c) eqn:P; simpl.
  - apply string_empty_true in E. rewrite E in Hs. change (s = b) in Hs. subst b.
    exists (String c s). split; [done|]. simpl. by rewrite P.
  - exists b. rewrite append_cons. by rewrite <- Hs.
  - exists b. rewrite append_cons. by rewrite <- Hs.
  - exists b. rewrite append_cons. by rewrite <- Hs.
Qed.

Lemma drop_while_end_last p s c :
  string_last (drop_while_end p s) = Some c → p c = false.
Proof.
  induction s as [|x s IH]; [done|]. simpl.
  destruct (string_empty (drop_while_end p s)) eqn:E, (p x) eqn:P; simpl; try done.
  - apply string_empty_true in E. rewrite E. by intros [= <-].
  - apply string_empty_false in E. by destruct (drop_while_end p s).
  - apply string_empty_false in E. by destruct (drop_while_end p s).
Qed.

Lemma drop_while_end_head p s :
  string_head (drop_while_end p s) = None ∨
  string_head (drop_while_end p s) = string_head s.
Proof.
  destruct s as [|c s]; [by left|]. simpl.
  destruct (string_empty (drop_while_end p s) && p c); [by left|by right].
Qed.

Lemma drop_while_fixed p s :
  (∀ c, string_head s = Some c → p c = false) → drop_while p s = s.
Proof.
  destruct s as [|c s]; [done|]. simpl. intros H. by rewrite (H c eq_refl).
Qed.

Lemma string_forall_app p a b :
  string_forall p (a +:+ b) = string_forall p a && string_forall p b.
Proof.
  induction a as [|c a IH]; [done|]. rewrite append_cons. simpl.
  by rewrite IH, andb_assoc.
Qed.

Lemma drop_while_forall p s : string_forall p s = true → drop_while p s = EmptyString.
Proof.
  induction s as [|c s IH]; [done|]. simpl.
  intros [Hc Hs]%andb_true_iff. rewrite Hc. by apply IH.
Qed.

Lemma trim_head s c : string_head (trim s) = Some c → isspace c = false.
Proof.
  unfold trim. intros H.
  destruct (drop_while_end_head isspace (drop_while isspace s)) as [E|E];
    rewrite E in H; [done|]. by apply drop_while_head in H.
Qed.

(** X1. [trim] cuts white space off both ends and nothing else: the string
    is a run of white space, then the result, then a run of white space; the
    result neither begins nor ends with white space; it is empty exactly when
    the string is all white space; trimming twice changes nothing. *)
Theorem X1_trim_spec (s : string) :
  (∃ a b, s = a +:+ trim s +:+ b ∧
          string_forall isspace a = true ∧ string_forall isspace b = true) ∧
  (∀ c, string_head (trim s) = Some c → isspace c = false) ∧
  (∀ c, string_last (trim s) = Some c → isspace c = false) ∧
  (trim s = EmptyString ↔ string_forall isspace s = true) ∧
  trim (trim s) = trim s.
Proof.
  assert (∃ a b, s = a +:+ trim s +:+ b ∧
          string_forall isspace a = true ∧ string_forall isspace b = true)
    as Hsplit.
  { unfold trim.
    destruct (drop_while_end_split isspace (drop_while isspace s)) as (b & Hb & Fb).
    exists (take_while isspace s), b.
    rewrite <- Hb, <- take_drop_while. by rewrite take_while_forall. }
  split; [exact Hsplit|]. split; [apply trim_head|].
  split; [intros c; apply drop_while_end_last|]. split.
  - split.
    + intros E. destruct Hsplit as (a & b & Hs & Ha & Hb).
      rewrite E in Hs. rewrite Hs. change (EmptyString +:+ b) with b.
      by rewrite string_forall_app, Ha, Hb.
    + intros H. unfold trim. by rewrite (drop_while_forall _ _ H).
  - unfold trim at 1.
    rewrite (drop_while_fixed isspace (trim s)) by apply trim_head.
    unfold trim. by apply drop_while_end_absorb.
Qed.

Lemma lower_fixed s : lower s = s ↔ no_upper s = true.
Proof.
  unfold lower, no_upper. induction s as [|c s IH]; [done|]. simpl.
  unfold tolower at 1. destruct (isupper c) eqn:E; simpl.
  - split; [|done]. intros [= Hc _].
    pose proof (tolower_not_upper c) as H. unfold tolower in H.
    rewrite E, Hc in H. congruence.
  - rewrite <- IH. split; [by intros [= ->]|by intros ->].
Qed.

(** X2. [lower] keeps the length, leaves exactly the strings without
    upper-case letter as they are, returns such a string, and only rewrites
    the letters A to Z: every other character keeps its place and value. *)
Theorem X2_lower_spec (s : string) :
  String.length (lower s) = String.length s ∧
  (lower s = s ↔ no_upper s = true) ∧
  no_upper (lower s) = true ∧
  lower (lower s) = lower s ∧
  (∀ i c, String.get i s = Some c → isupper c = false →
          String.get i (lower s) = Some c).
Proof.
  split; [|split; [apply lower_fixed|split; [apply lower_no_upper|split; [apply lower_idem|]]]].
  - unfold lower. induction s as [|c s IH]; [done|]. simpl. by rewrite IH.
  - unfold lower. induction s as [|x s IH]; intros i c; [done|].
    destruct i as [|i]; simpl.
    + intros [= ->] Hc. unfold tolower. by rewrite Hc.
    + apply IH.
Qed.

(** ** [randomBoundary] *)

Lemma of_pos_hex_digits :
  ∀ p rest, string_forall is_hex_digit rest = true →
            string_forall is_hex_digit (HexString.Raw.of_pos p rest) = true.
Proof.
  fix IH 1. intros p rest H.
  do 4 (try destruct p as [p|p|]); cbn [HexString.Raw.of_pos];
    first [ apply IH; simpl; exact H | simpl; exact H ].
Qed.

Lemma of_pos_length :
  ∀ p rest, ∃ k : nat,
    String.length (HexString.Raw.of_pos p rest) = (S k + String.length rest)%nat ∧
    16 ^ Z.of_nat k ≤ Z.pos p.
Proof.
  fix IH 1. intros p rest.
  do 4 (try destruct p as [p|p|]); cbn [HexString.Raw.of_pos];
    try (exists O; split; [reflexivity | simpl; lia]);
    match goal with
    | |- context [HexString.Raw.of_pos p (String ?d rest)] =>
        destruct (IH p (String d rest)) as (k & Hl & Hk);
        exists (S k); split; [rewrite Hl; simpl; lia|];
        rewrite Nat2Z.inj_succ, Z.pow_succ_r by lia; lia
    end.
Qed.

Lemma hex_spec (x : N) :
  (x < 2 ^ 64)%N →
  string_forall is_hex_digit (hex x) = true ∧
  (1 ≤ String.length (hex x) ≤ 16)%nat.
Proof.
  intros Hx. destruct x as [|p]; [split; [reflexivity | simpl; lia]|]. unfold hex. split.
  - by apply of_pos_hex_digits.
  - destruct (of_pos_length p EmptyString) as (k & Hl & Hk). rewrite Hl. simpl.
    assert (Z.pos p < 2 ^ 64) as Hp by lia.
    destruct (decide (k < 16)%nat) as [|Hge]; [lia|]. exfalso.
    assert (16 ^ 16 ≤ 16 ^ Z.of_nat k) by (apply Z.pow_le_mono_r; lia).
    change (16 ^ 16) with (2 ^ 64) in *. lia.
Qed.

(** X3. For the 64-bit draws the generator yields, the boundary is the fixed
    prefix followed by 3 to 48 lower-case hexadecimal digits, at most 69
    characters in all. *)
Theorem X3_randomBoundary_shape (d1 d2 d3 : N) :
  (d1 < 2 ^ 64)%N → (d2 < 2 ^ 64)%N → (d3 < 2 ^ 64)%N →
  ∃ tail, randomBoundary (d1, d2, d3) = BOUNDARY_PREFIX +:+ tail ∧
          string_forall is_hex_digit tail = true ∧
          (3 ≤ String.length tail ≤ 48)%nat ∧
          (String.length (randomBoundary (d1, d2, d3)) ≤ 69)%nat.
Proof.
  intros H1 H2 H3.
  destruct (hex_spec d1 H1) as [F1 L1], (hex_spec d2 H2) as [F2 L2],
    (hex_spec d3 H3) as [F3 L3].
  exists (hex d1 +:+ hex d2 +:+ hex d3).
  split; [reflexivity|]. split.
  { by rewrite !string_forall_app, F1, F2, F3. }
  assert (3 ≤ String.length (hex d1 +:+ hex d2 +:+ hex d3) ≤ 48)%nat as HL.
  { rewrite !string_app_length. lia. }
  split; [exact HL|].
  change (randomBoundary (d1, d2, d3))
    with (BOUNDARY_PREFIX +:+ hex d1 +:+ hex d2 +:+ hex d3).
  rewrite (string_app_length BOUNDARY_PREFIX). simpl String.length at 1. lia.
Qed.

Lemma X3_witness :
  randomBoundary (0, 255, 18446744073709551615)%N
    = "----LioraFormBoundary0ffffffffffffffffff" ∧
  (String.length (randomBoundary (0, 255, 18446744073709551615)%N) ≤ 69)%nat.
Proof.
  destruct (X3_randomBoundary_shape 0 255 18446744073709551615)
    as (tail & _ & _ & _ & H); [reflexivity..|].
  split; [reflexivity | exact H].
Defined.

(** X4. The hexadecimal text written for a draw reads back as the draw, so
    two different draws are never written the same. *)
Theorem X4_hex_round_trip (x y : N) :
  HexString.Raw.to_N (hex x) 0%N = x ∧ (hex x = hex y → x = y).
Proof.
  assert (∀ z, HexString.Raw.to_N (hex z) 0%N = z) as H.
  { intros [|p]; [reflexivity|]. unfold hex. by rewrite HexString.Raw.to_N_of_pos. }
  split; [apply H|]. intros E. by rewrite <- (H x), <- (H y), E.
Qed.

(** ** More on the header accumulator *)

Lemma string_forall_impl (p q : ascii → bool) s :
  (∀ c, p c = true → q c = true) →
  string_forall p s = true → string_forall q s = true.
Proof.
  intros Hpq. induction s as [|c s IH]; [done|]. simpl.
  intros [Hc Hs]%andb_true_iff. by rewrite (Hpq _ Hc), IH.
Qed.

Lemma blank_no_colon s :
  string_forall isspace s = true → find_char ":" s = None.
Proof.
  induction s as [|c s IH]; [done|]. simpl.
  intros [Hc Hs]%andb_true_iff. rewrite (IH Hs).
  destruct (Ascii.eqb c ":") eqn:E; [|done].
  apply Ascii.eqb_eq in E. subst c. discriminate.
Qed.

Lemma prefix_cons a p c s :
  String.prefix (String a p) (String c s) =
  if ascii_dec a c then String.prefix p s else false.
Proof. reflexivity. Qed.

Lemma blank_not_status s :
  string_forall isspace s = true → is_status_line s = false.
Proof.
  unfold is_status_line, starts_with. destruct s as [|c s]; [reflexivity|].
  cbn [string_forall]. intros [Hc _]%andb_true_iff. rewrite prefix_cons.
  destruct (ascii_dec "H" c) as [<-|]; [discriminate|reflexivity].
Qed.

(** X5. A line of white space only, the blank line that ends a header block
    among them, leaves the accumulated response exactly as it was. *)
Theorem X5_blank_line_ignored (r : ResponseData) (raw : string) :
  trim raw = EmptyString → addHeaderLine r raw = r.
Proof.
  intros H. apply (X1_trim_spec raw) in H.
  rewrite addHeaderLine_header by by apply blank_not_status.
  by rewrite blank_no_colon.
Qed.

Lemma X5_witness :
  addHeaderLine (addHeaderLine ResponseData_init "A: 1") CRLF
  = addHeaderLine ResponseData_init "A: 1".
Proof. apply X5_blank_line_ignored. reflexivity. Defined.

Lemma headers_after_line r1 r2 raw :
  headers r1 = headers r2 →
  headers (addHeaderLine r1 raw) = headers (addHeaderLine r2 raw).
Proof.
  intros H. destruct (is_status_line raw) eqn:E.
  - destruct (addHeaderLine_status_line r1 raw E) as (-> & _).
    by destruct (addHeaderLine_status_line r2 raw E) as (-> & _).
  - rewrite !addHeaderLine_header by done.
    destruct (find_char ":" raw); [|done].
    destruct (string_empty _); [done|]. cbn [headers with_headers]. by rewrite H.
Qed.

Lemma headers_after_lines lines :
  ∀ r1 r2, headers r1 = headers r2 → statusText r1 = statusText r2 →
    headers (addHeaderLines r1 lines) = headers (addHeaderLines r2 lines) ∧
    statusText (addHeaderLines r1 lines) = statusText (addHeaderLines r2 lines).
Proof.
  unfold addHeaderLines.
  induction lines as [|l lines IH]; intros r1 r2 Hh Ht; cbn [fold_left]; [done|].
  apply IH; [by apply headers_after_line|].
  by rewrite !addHeaderLine_statusText, Ht.
Qed.

(** X6. Only the last hop survives: the header mapping and the status text
    after any sequence of lines are those a fresh accumulator gets from the
    last status line and the lines after it; what earlier hops left plays no
    part. *)
Theorem X6_last_hop_only (r : ResponseData) (pre post : list string) (sl : string) :
  is_status_line sl = true →
  headers (addHeaderLines r (pre ++ sl :: post))
    = headers (addHeaderLines ResponseData_init (sl :: post)) ∧
  statusText (addHeaderLines r (pre ++ sl :: post))
    = statusText (addHeaderLines ResponseData_init (sl :: post)).
Proof.
  intros Hs. unfold addHeaderLines. rewrite fold_left_app. cbn [fold_left].
  apply headers_after_lines.
  - destruct (addHeaderLine_status_line (fold_left addHeaderLine pre r) sl Hs) as (-> & _).
    by destruct (addHeaderLine_status_line ResponseData_init sl Hs) as (-> & _).
  - by destruct (addHeaderLine_status_line (fold_left addHeaderLine pre r) sl Hs)
      as (_ & _ & _ & ->).
Qed.

Lemma X6_witness :
  let r := addHeaderLines ResponseData_init
             (["HTTP/1.1 302 Found" +:+ CRLF; "Location: /b" +:+ CRLF; CRLF] ++
              ("HTTP/1.1 404 Not Found" +:+ CRLF) :: ["X-Id: 7" +:+ CRLF; CRLF]) in
  map_to_list (headers r) = [("x-id", ["7"])] ∧ statusText r = "Not Found".
Proof.
  intros r. subst r.
  destruct (X6_last_hop_only ResponseData_init
              ["HTTP/1.1 302 Found" +:+ CRLF; "Location: /b" +:+ CRLF; CRLF]
              ["X-Id: 7" +:+ CRLF; CRLF] ("HTTP/1.1 404 Not Found" +:+ CRLF) eq_refl)
    as [-> ->].
  split; vm_compute; reflexivity.
Defined.



(** ** Reading a status line *)

Lemma string_app_assoc a b c : (a +:+ b) +:+ c = a +:+ (b +:+ c).
Proof. induction a as [|x a IH]; [done|]. by rewrite !append_cons, IH. Qed.

Lemma span_app p a b :
  string_forall p a = true →
  (∀ c, string_head b = Some c → p c = false) →
  take_while p (a +:+ b) = a ∧ drop_while p (a +:+ b) = b.
Proof.
  intros Ha Hb. induction a as [|c a IH].
  - change (EmptyString +:+ b) with b. destruct b as [|c b]; [done|]. simpl.
    by rewrite (Hb c eq_refl).
  - cbn [string_forall] in Ha. apply andb_true_iff in Ha as [Hc Ha].
    rewrite append_cons. simpl. rewrite Hc.
    destruct (IH Ha) as [-> ->]. done.
Qed.

Lemma chomp_no_crlf s : string_forall not_crlf s = true → chomp s = s.
Proof.
  unfold chomp, not_crlf. induction s as [|c s IH]; [done|]. simpl.
  intros [Hc Hs]%andb_true_iff. apply negb_true_iff in Hc.
  by rewrite (IH Hs), Hc, andb_false_r.
Qed.

Lemma chomp_eol a eol :
  string_forall is_crlf eol = true → chomp (a +:+ eol) = chomp a.
Proof.
  unfold chomp. intros He.
  assert (drop_while_end is_crlf eol = EmptyString) as E0.
  { induction eol as [|c e IH]; [done|]. simpl in *.
    apply andb_true_iff in He as [Hc He]. by rewrite (IH He), Hc. }
  induction a as [|c a IH]; [exact E0|].
  rewrite append_cons. simpl. by rewrite IH.
Qed.

Lemma prefix_app p a b :
  String.prefix p a = true → String.prefix p (a +:+ b) = true.
Proof.
  revert a. induction p as [|x p IH]; intros a; [intros _; apply prefix_empty|].
  destruct a as [|c a]; [done|]. rewrite append_cons, !prefix_cons.
  destruct (ascii_dec x c); [apply IH|done].
Qed.

Lemma digit_not_space c : isdigit c = true → isspace c = false.
Proof. destruct c as [[] [] [] [] [] [] [] []]; vm_compute; congruence. Qed.

Lemma digit_no_sign {A} c (x y z : A) :
  isdigit c = true →
  match c with
  | "-"%char => x
  | "+"%char => y
  | _ => z
  end = z.
Proof. destruct c as [[] [] [] [] [] [] [] []]; vm_compute; congruence. Qed.

Lemma decimal_value_nonneg s :
  string_forall isdigit s = true → ∀ acc, 0 ≤ acc → 0 ≤ decimal_value acc s.
Proof.
  induction s as [|c s IH]; [done|]. cbn [string_forall decimal_value].
  intros [Hc Hs]%andb_true_iff acc Hacc. apply IH; [done|].
  unfold digit_value, isdigit in *. apply andb_true_iff in Hc as [Hc _].
  apply N.leb_le in Hc. lia.
Qed.

Lemma take_while_no_lf s :
  string_forall not_crlf s = true →
  take_while (λ c, negb (Ascii.eqb c LF)) s = s.
Proof.
  induction s as [|x s IH]; [done|]. cbn [string_forall take_while].
  intros [Hx Hs]%andb_true_iff. rewrite (IH Hs).
  unfold not_crlf, is_crlf in Hx. apply negb_true_iff, orb_false_iff in Hx as [_ Hx].
  by rewrite Hx.
Qed.

(** X8. A status line made of a protocol word that begins with HTTP/ and
    holds no white space, one space, a run of digits whose value fits a long,
    then a reason that does not begin with a digit and holds no CR or LF,
    then any run of CR and LF: the accumulator empties the header mapping,
    takes the value of the digits as status code and the trimmed reason as
    status text, and leaves body and URL alone. *)
Theorem X8_status_line_parsed
    (r : ResponseData) (proto digits reason eol : string) :
  starts_with "HTTP/" proto = true →
  string_forall not_space proto = true →
  digits ≠ EmptyString →
  string_forall isdigit digits = true →
  decimal_value 0 digits ≤ LONG_MAX →
  (∀ c, string_head reason = Some c → isdigit c = false) →
  string_forall not_crlf reason = true →
  string_forall is_crlf eol = true →
  addHeaderLine r (proto +:+ " " +:+ digits +:+ reason +:+ eol) =
    {| body := body r; headers := ∅; status := decimal_value 0 digits;
       url := url r; statusText := trim reason |}.
Proof.
  intros Hp Hws Hne Hd Hmax Hr Hcr He.
  assert (string_forall not_crlf (proto +:+ " " +:+ digits +:+ reason) = true) as Hline.
  { rewrite !string_forall_app, Hcr.
    rewrite (string_forall_impl not_space not_crlf proto), (string_forall_impl isdigit not_crlf digits);
      try done.
    - intros c Hc. unfold not_crlf. apply negb_true_iff.
      destruct (is_crlf c) eqn:E; [|done].
      apply is_crlf_isspace in E. by rewrite (digit_not_space c Hc) in E.
    - intros c Hc. unfold not_space, not_crlf in *. apply negb_true_iff in Hc.
      apply negb_true_iff. destruct (is_crlf c) eqn:E; [|done].
      apply is_crlf_isspace in E. congruence. }
  unfold addHeaderLine.
  replace (proto +:+ " " +:+ digits +:+ reason +:+ eol)
    with ((proto +:+ " " +:+ digits +:+ reason) +:+ eol).
  2:{ by rewrite !string_app_assoc. }
  rewrite chomp_eol, chomp_no_crlf by done.
  destruct proto as [|h proto]; [done|].
  rewrite append_cons. cbn [string_empty].
  rewrite <- append_cons. unfold starts_with in *. rewrite (prefix_app _ _ _ Hp).
  unfold stream_of at 1. rewrite append_cons. cbn [string_empty].
  rewrite <- append_cons. cbn [extract_word].
  assert (isspace h = false) as Hh.
  { cbn [string_forall] in Hws. apply andb_true_iff in Hws as [Hh _].
    by apply negb_true_iff in Hh. }
  rewrite (drop_while_fixed isspace (String h proto +:+ _)).
  2:{ rewrite append_cons. by intros c [= <-]. }
  destruct (span_app not_space (String h proto) (" " +:+ digits +:+ reason) Hws) as [_ Hrest].
  { by intros c [= <-]. }
  fold not_space. rewrite Hrest. clear Hrest.
  change (stream_of (" " +:+ digits +:+ reason)) with (Some (" " +:+ digits +:+ reason)).
  pose proof (decimal_value_nonneg _ Hd 0 ltac:(lia)) as Hnn.
  destruct (span_app isdigit digits reason Hd Hr) as [Htake Hdrop].
  assert (string_empty digits = false) as Hne' by by apply string_empty_false.
  destruct digits as [|d digits]; [done|].
  assert (isdigit d = true) as Hd0.
  { cbn [string_forall] in Hd. by apply andb_true_iff in Hd as [? _]. }
  assert (drop_while isspace (" " +:+ String d digits +:+ reason)
          = String d (digits +:+ reason)) as Hskip.
  { change (" " +:+ String d digits +:+ reason) with (String " " (String d (digits +:+ reason))).
    cbn [drop_while]. change (isspace " ") with true. cbv iota.
    by rewrite (digit_not_space d Hd0). }
  rewrite append_cons in Htake, Hdrop.
  unfold extract_long. rewrite Hskip.
  destruct d as [[] [] [] [] [] [] [] []]; try (vm_compute in Hd0; discriminate Hd0);
    cbv beta iota zeta; rewrite Htake, Hdrop;
    cbn [string_empty];
    (destruct (_ >? LONG_MAX) eqn:E1;
       [rewrite Z.gtb_ltb in E1; apply Z.ltb_lt in E1; lia|]);
    (destruct (_ <? LONG_MIN) eqn:E2;
       [apply Z.ltb_lt in E2; unfold LONG_MIN in E2; lia|]);
    cbn [resetHop body headers url]; f_equal;
    (destruct reason as [|c reason]; [done|]); cbn [stream_of string_empty getline];
    f_equal; apply take_while_no_lf; exact Hcr.
Qed.

Lemma X8_witness :
  addHeaderLine (addHeaderLine ResponseData_init "Old: 1")
    ("HTTP/1.1" +:+ " " +:+ "404" +:+ " Not Found " +:+ CRLF)
  = {| body := []; headers := ∅; status := 404; url := EmptyString;
       statusText := "Not Found" |}.
Proof.
  apply (X8_status_line_parsed (addHeaderLine ResponseData_init "Old: 1")
           "HTTP/1.1" "404" " Not Found " CRLF); try reflexivity.
  - discriminate.
  - vm_compute. discriminate.
  - intros c [= <-]. reflexivity.
Defined.

(** ** More on the multipart encoder *)

Section MultipartParts.
Variable Utf8Value : Value → string.

Lemma flushDataPart_shape name filename contentType data textVal isFile :
  ∃ mid, flushDataPart name filename contentType data textVal isFile [] =
         bytes (disposition name) ++ mid ++ bytes CRLF.
Proof.
  unfold flushDataPart, vecAppend, vecAppendRaw, bytes. fold (disposition name).
  destruct isFile; [destruct (has_bytes data)|]; cbn [app];
    rewrite ?string_app_assoc, (list_byte_of_string_app (disposition name)).
  - match goal with |- ∃ mid, ((_ ++ ?a) ++ ?b) ++ _ = _ => exists (a ++ b) end.
    by rewrite <- !app_assoc.
  - match goal with |- ∃ mid, (_ ++ ?a) ++ _ = _ => exists a end.
    by rewrite <- !app_assoc.
  - match goal with |- ∃ mid, ((_ ++ ?a) ++ ?b) ++ _ = _ => exists (a ++ b) end.
    by rewrite <- !app_assoc.
Qed.

Lemma emitField_shape name v :
  ∃ mid, emitField Utf8Value name v [] = bytes (disposition name) ++ mid ++ bytes CRLF.
Proof.
  unfold emitField.
  repeat match goal with
         | |- context [if ?c then _ else _] => destruct c
         | |- context [let '(_, _) := ?p in _] => destruct p
         end; apply flushDataPart_shape.
Qed.

Lemma parts_shape formObj boundary names :
  ∃ mids : list (list byte),
    length mids = length names ∧
    concat ((λ p : string * list byte, delimiter boundary ++ p.2) <$>
              ((λ name, (name, emitField Utf8Value name (Get formObj (c_str name)) []))
                 <$> names))
    = concat (zip_with (λ name mid, delimiter boundary ++ bytes (disposition name)
                                    ++ mid ++ bytes CRLF) names mids).
Proof.
  induction names as [|n names (mids & Hl & IH)]; [by exists []|].
  destruct (emitField_shape n (Get formObj (c_str n))) as (mid & Hmid).
  exists (mid :: mids). split; [simpl; by rewrite Hl|].
  rewrite !fmap_cons. cbn [zip_with snd concat]. by rewrite IH, Hmid.
Qed.

(** X9. The body holds one part per property name of the form, in
    enumeration order: each part is the delimiter line of the boundary, the
    Content-Disposition header with that name between quotes, the rest of the
    part, and CRLF; after the last part comes the closing marker. *)
Theorem X9_one_part_per_field (formObj : Object) (draws : N * N * N) :
  let names := GetPropertyNames formObj in
  let boundary := randomBoundary draws in
  ∃ mids : list (list byte),
    length mids = length names ∧
    (buildMultipartFromNapi Utf8Value formObj [] draws).1 =
      concat (zip_with (λ name mid, delimiter boundary ++ bytes (disposition name)
                                    ++ mid ++ bytes CRLF) names mids)
      ++ closing_marker boundary.
Proof.
  intros names boundary. rewrite buildMultipart_render. cbn [fst app].
  destruct (parts_shape formObj boundary names) as (mids & Hl & H).
  exists mids. split; [exact Hl|]. unfold render. f_equal. exact H.
Qed.

(** X10. For a descriptor object, the buffer that counts is that of the first
    of [value], [data], [buffer] that is a buffer. When it is not empty the
    part is a file part: filename and Content-Type are the descriptor's
    [filename] and [contentType], or "blob" and "application/octet-stream"
    when the property is missing or its text is empty, and the bytes follow
    unchanged. Otherwise the part is a text part, which never carries a
    filename or a Content-Type: its text is empty for an empty buffer, else
    the text of [value] when present, else the text of the object. *)
Theorem X10_descriptor_part (name : string) (c : bool) (o : Object) :
  emitField Utf8Value name (VObject c o) [] =
    match descriptor_buffer o with
    | Some (b :: bs) =>
        bytes (disposition name +:+ "; filename=" +:+ DQUOTE +:+
               property_or Utf8Value o "filename" "blob" +:+ DQUOTE +:+ CRLF +:+
               "Content-Type: " +:+
               property_or Utf8Value o "contentType" "application/octet-stream" +:+
               CRLF +:+ CRLF)
        ++ (b :: bs) ++ bytes CRLF
    | Some [] => bytes (disposition name +:+ CRLF +:+ CRLF) ++ bytes CRLF
    | None =>
        bytes (disposition name +:+ CRLF +:+ CRLF)
        ++ bytes (if Has o "value" then Utf8Value (Get o "value")
                  else Utf8Value (VObject c o))
        ++ bytes CRLF
    end.
Proof.
  unfold emitField, descriptor_buffer, property_or. cbn [IsBuffer IsObject AsObject].
  assert (∀ fn ct (d : list byte) tv,
            flushDataPart name fn ct (Some d) tv (has_bytes (Some d)) [] =
            match d with
            | _ :: _ =>
                bytes (disposition name +:+ "; filename=" +:+ DQUOTE +:+
                       (if string_empty fn then "blob" else fn) +:+ DQUOTE +:+ CRLF +:+
                       "Content-Type: " +:+
                       (if string_empty ct then "application/octet-stream" else ct) +:+
                       CRLF +:+ CRLF) ++ d ++ bytes CRLF
            | [] => bytes (disposition name +:+ CRLF +:+ CRLF) ++ bytes tv ++ bytes CRLF
            end) as Hfile.
  { intros fn ct d tv. unfold flushDataPart, vecAppend, vecAppendRaw, bytes.
    fold (disposition name).
    destruct d; cbn [has_bytes app from_option id];
      rewrite ?string_app_assoc, <- ?app_assoc; reflexivity. }
  assert (∀ fn ct tv,
            flushDataPart name fn ct None tv false [] =
            bytes (disposition name +:+ CRLF +:+ CRLF) ++ bytes tv ++ bytes CRLF) as Htext.
  { intros fn ct tv. unfold flushDataPart, vecAppend, bytes. fold (disposition name).
    cbn [app]. rewrite <- ?app_assoc. reflexivity. }
  assert (∀ fn ct (d : list byte) tv,
     (if has_bytes (Some d) then flushDataPart name fn ct (Some d) tv true []
      else flushDataPart name fn ct (Some d) tv false []) =
     flushDataPart name fn ct (Some d) tv (has_bytes (Some d)) []) as Hif.
  { intros. by destruct (has_bytes _). }
  assert (∀ k fb, (if string_empty (if Has o k then Utf8Value (Get o k) else EmptyString)
                   then fb
                   else (if Has o k then Utf8Value (Get o k) else EmptyString))
                  = (if Has o k
                     then if string_empty (Utf8Value (Get o k)) then fb
                          else Utf8Value (Get o k)
                     else fb)) as Hprop.
  { intros k fb. by destruct (Has o k). }
  destruct (Has o "value" && IsBuffer (Get o "value")).
  { rewrite Hif, Hfile, !Hprop. by destruct (AsBuffer _). }
  destruct (Has o "data" && IsBuffer (Get o "data")).
  { rewrite Hif, Hfile, !Hprop. by destruct (AsBuffer _). }
  destruct (Has o "buffer" && IsBuffer (Get o "buffer")).
  { rewrite Hif, Hfile, !Hprop. by destruct (AsBuffer _). }
  destruct (Has o "value"); cbn [has_bytes]; by rewrite Htext.
Qed.

End MultipartParts.

Lemma X9_witness :
  ∃ mid1 mid2,
    (buildMultipartFromNapi plain_text sample_form [] (1, 2, 3)%N).1 =
      (delimiter "----LioraFormBoundary123" ++ bytes (disposition "file") ++ mid1 ++ bytes CRLF)
      ++ (delimiter "----LioraFormBoundary123" ++ bytes (disposition "name") ++ mid2 ++ bytes CRLF)
      ++ closing_marker "----LioraFormBoundary123".
Proof.
  destruct (X9_one_part_per_field plain_text sample_form (1, 2, 3)%N) as (mids & Hl & H).
  destruct mids as [|mid1 [|mid2 [|? ?]]]; try discriminate Hl.
  exists mid1, mid2. rewrite H. cbn [GetPropertyNames sample_form fmap list_fmap fst zip_with concat].
  by rewrite app_nil_r, <- app_assoc.
Defined.

(** ** More on the constructor and the request it prepares *)

Lemma Has_elem o k : Has o k = true → k ∈ GetPropertyNames o.
Proof.
  unfold Has, GetPropertyNames. induction o as [|[k' v] o IH]; [done|].
  cbn [lookup_prop fmap list_fmap fst]. destruct (String.eqb_spec k' k) as [->|].
  - intros _. apply list_elem_of_here.
  - intros H. apply list_elem_of_further, IH, H.
Qed.

Lemma lookup_prop_NoDup o k v :
  NoDup o.*1 → (k, v) ∈ o → lookup_prop o k = Some v.
Proof.
  induction o as [|[k' v'] o IH]; intros Hnd Hin; [by apply elem_of_nil in Hin|].
  rewrite fmap_cons in Hnd. apply NoDup_cons in Hnd as [Hk' Hnd].
  cbn [lookup_prop]. apply elem_of_cons in Hin as [[= -> ->]|Hin].
  - by rewrite String.eqb_refl.
  - destruct (String.eqb_spec k' k) as [->|]; [|by apply IH].
    exfalso. apply Hk'. apply list_elem_of_fmap. by exists (k, v).
Qed.

Section ConstructorFacts.
Variable Utf8Value : Value → string.
Variable Int32Value : Value → Z.
Variable Int64Value : Value → Z.
Variable BooleanValue : Value → bool.
Variable BufferObject : list byte → Object.

(** X11. Which request body is sent. When [formData] is an object the
    [body] option is dropped: the body sent is the multipart body, rendered
    with the boundary drawn, and unless the caller's headers have
    Content-Type in one of the two spellings looked up, the one header added
    for it announces that same boundary. Otherwise the body sent is the
    [body] option, the bytes of a buffer or of the text of any other value,
    nothing at all when these are empty or the option is missing, and no
    multipart Content-Type is added. *)
Theorem X11_request_body (url : string) (opts : Object) (draws : N * N * N) :
  let r := req (FetchWorker_new Utf8Value Int32Value Int64Value BooleanValue BufferObject
                  url opts draws) in
  let boundary := randomBoundary draws in
  if Has opts "formData" && IsObject (Get opts "formData") then
    body_ r = [] ∧
    postFields r =
      Some (render boundary
              (multipart_parts Utf8Value (ObjectOf BufferObject (Get opts "formData")))) ∧
    multipartHeader r =
      (if haveContentType_ r then []
       else ["Content-Type: multipart/form-data; boundary=" +:+ boundary])
  else
    postFields r = nonempty_bytes (body_option Utf8Value opts) ∧
    multipartHeader r = [].
Proof.
  intros r boundary. subst r. unfold postFields, multipartHeader, body_option.
  cbn [req FetchWorker_new useMultipart_ multipartBody_ multipartBoundary_ body_
       haveContentType_].
  destruct (Has opts "formData" && IsObject (Get opts "formData")).
  - rewrite buildMultipart_render. cbn [fst snd app andb].
    repeat split. by destruct (_ && _).
  - cbn [andb]. split; [|done]. unfold nonempty_bytes.
    by destruct (Has opts "body"); [destruct (IsBuffer _)|].
Qed.

Lemma c_str_id s : no_nul s = true → c_str s = s.
Proof.
  unfold c_str, no_nul. induction s as [|c s IH]; [done|]. simpl.
  fold (not_nul c). destruct (not_nul c); [|done]. intros H. by rewrite IH.
Qed.

Lemma plain_name_no_nul s : plain_name s = true → no_nul s = true.
Proof.
  apply string_forall_impl. intros c. unfold is_plain, not_nul, NUL.
  destruct (Ascii.eqb_spec c "000"%char) as [->|]; [done|done].
Qed.

Lemma c_str_app a b : no_nul a = true → c_str (a +:+ b) = a +:+ c_str b.
Proof.
  unfold c_str, no_nul. induction a as [|c a IH]; [done|]. rewrite !append_cons. simpl.
  fold (not_nul c). destruct (not_nul c); [|done]. intros H. by rewrite IH.
Qed.

Lemma headerKVs_has (h : Object) (k : string) :
  Has h k = true → k ≠ EmptyString → no_nul k = true →
  k +:+ ": " +:+ c_str (Utf8Value (Get h k)) ∈ c_str <$> headerKVs Utf8Value h.
Proof.
  intros Hk Hne Hn. apply list_elem_of_fmap.
  exists (k +:+ ": " +:+ Utf8Value (Get h k)). split.
  { by rewrite !c_str_app. }
  unfold headerKVs. apply list_elem_of_In, in_flat_map.
  exists k. split; [by apply list_elem_of_In, Has_elem|].
  rewrite (c_str_id k Hn).
  destruct k; [done|]. cbn [string_empty negb]. by left.
Qed.

Lemma default_or_caller (opts : Object) (canonical lowercase default : string)
    (have : bool) (hs : list string) :
  canonical ≠ EmptyString → lowercase ≠ EmptyString →
  no_nul canonical = true → no_nul lowercase = true →
  let have_h := Has opts "headers" && IsObject (Get opts "headers") in
  let h := ObjectOf BufferObject (Get opts "headers") in
  have = have_h && (Has h canonical || Has h lowercase) →
  (have = false → default ∈ hs) →
  (have_h = true → c_str <$> headerKVs Utf8Value h ⊆ hs) →
  ∃ line, line ∈ hs ∧ header_line_for canonical lowercase default line.
Proof.
  intros Hc Hl Hnc Hnl have_h h Hhave Hdef Hcaller. destruct have.
  - symmetry in Hhave. apply andb_true_iff in Hhave as [Hh Hk].
    apply orb_true_iff in Hk as [Hk|Hk].
    + exists (canonical +:+ ": " +:+ c_str (Utf8Value (Get h canonical))).
      split; [by apply Hcaller, headerKVs_has|]. right. left. by eexists.
    + exists (lowercase +:+ ": " +:+ c_str (Utf8Value (Get h lowercase))).
      split; [by apply Hcaller, headerKVs_has|]. right. right. by eexists.
  - exists default. split; [by apply Hdef|]. by left.
Qed.

(** X12. Every request carries a User-Agent, a Connection and an Expect
    header line: the default one, or the caller's own, written with the
    spelling that suppressed the default. The list handed to the transport
    is therefore never empty. *)
Theorem X12_headers_always_sent (url : string) (opts : Object) (draws : N * N * N) :
  let r := req (FetchWorker_new Utf8Value Int32Value Int64Value BooleanValue BufferObject
                  url opts draws) in
  (∃ line, line ∈ requestHeaders r ∧
           header_line_for "User-Agent" "user-agent" UA_DEFAULT line) ∧
  (∃ line, line ∈ requestHeaders r ∧
           header_line_for "Connection" "connection" CONN_DEFAULT line) ∧
  (∃ line, line ∈ requestHeaders r ∧
           header_line_for "Expect" "expect" EXPECT_DEFAULT line) ∧
  requestHeaders r ≠ [].
Proof.
  intros r.
  assert (∀ canonical lowercase default have,
            canonical ≠ EmptyString → lowercase ≠ EmptyString →
            no_nul canonical = true → no_nul lowercase = true →
            have = (Has opts "headers" && IsObject (Get opts "headers")) &&
                   (Has (ObjectOf BufferObject (Get opts "headers")) canonical ||
                    Has (ObjectOf BufferObject (Get opts "headers")) lowercase) →
            (have = false → default ∈ defaultHeaders r) →
            ∃ line, line ∈ requestHeaders r ∧
                    header_line_for canonical lowercase default line) as Hgen.
  { intros canonical lowercase default have Hc Hl Hnc Hnl Hhave Hdef.
    apply (default_or_caller opts canonical lowercase default have); try done.
    - intros Hf. unfold requestHeaders. apply elem_of_app. left. by apply Hdef.
    - intros Hh x Hx. unfold requestHeaders. rewrite !elem_of_app. right. right.
      subst r. cbn [req FetchWorker_new headersKVs_]. by rewrite Hh. }
  destruct (defaultHeaders_elem r) as (Hua & _ & Hconn & Hexp).
  assert (∃ line, line ∈ requestHeaders r ∧
            header_line_for "User-Agent" "user-agent" UA_DEFAULT line) as H1.
  { apply (Hgen _ _ _ (haveUserUA_ r)); try done. by rewrite Hua. }
  split; [exact H1|]. split; [|split].
  - apply (Hgen _ _ _ (haveConn_ r)); try done. by rewrite Hconn.
  - apply (Hgen _ _ _ (haveExpect_ r)); try done. by rewrite Hexp.
  - destruct H1 as (line & Hin & _). intros E. rewrite E in Hin.
    by apply elem_of_nil in Hin.
Qed.

(** X13. With pairwise distinct property names, as a JavaScript object has
    them, each made of ASCII characters other than NUL, every name is paired
    with its own value: the caller's headers are written one line per entry
    with a non-empty name, in order, and the parts of a form are built one
    per entry from its own name and value. (A name with a NUL is looked up
    by what precedes the NUL, see [headerKVs_nul_example].) *)
Theorem X13_entries_in_order (h : Object) :
  NoDup (GetPropertyNames h) →
  Forall (λ k, plain_name k = true) (GetPropertyNames h) →
  headerKVs Utf8Value h =
    omap (λ kv : string * Value,
            if string_empty kv.1 then None
            else Some (kv.1 +:+ ": " +:+ Utf8Value kv.2)) h ∧
  multipart_parts Utf8Value h =
    (λ kv : string * Value, (kv.1, emitField Utf8Value kv.1 kv.2 [])) <$> h.
Proof.
  intros Hnd Hnul.
  assert (∀ k v, (k, v) ∈ h → Get h (c_str k) = v) as Hget.
  { intros k v Hin. rewrite c_str_id.
    - unfold Get. by rewrite (lookup_prop_NoDup h k v Hnd Hin).
    - apply plain_name_no_nul.
      rewrite List.Forall_forall in Hnul. apply Hnul, list_elem_of_In.
      apply list_elem_of_fmap. by exists (k, v). }
  clear Hnd Hnul. unfold headerKVs, multipart_parts, GetPropertyNames.
  generalize dependent Hget. generalize (Get h). intros get.
  induction h as [|[k v] h IH]; intros Hget; [done|].
  rewrite !fmap_cons. cbn [flat_map omap list_omap fst snd].
  rewrite (Hget k v) by apply list_elem_of_here.
  destruct IH as [IH1 IH2].
  { intros k' v' Hin. apply Hget. by apply list_elem_of_further. }
  split; [|by rewrite IH2].
  destruct (string_empty k); cbn [negb app]; by rewrite IH1.
Qed.

End ConstructorFacts.

Lemma X13_witness :
  headerKVs plain_text [("A", VPrimitive "1"); (EmptyString, VPrimitive "x"); ("B", VPrimitive "2")]
  = ["A: 1"; "B: 2"].
Proof.
  destruct (X13_entries_in_order plain_text
              [("A", VPrimitive "1"); (EmptyString, VPrimitive "x"); ("B", VPrimitive "2")])
    as [H _].
  - apply (bool_decide_unpack _). vm_compute. exact I.
  - repeat constructor.
  - rewrite H. reflexivity.
Defined.

(** A buffer passed as [formData] is taken as an object: one part per
    property the runtime shows for it. *)
Example buffer_as_form_example :
  multipartBody_ (req (new_worker [("formData", VBuffer (bytes "A"))])) =
  bytes ("------LioraFormBoundary123" +:+ CRLF +:+
         "Content-Disposition: form-data; name=" +:+ DQUOTE +:+ "0" +:+ DQUOTE +:+
         CRLF +:+ CRLF +:+ "65" +:+ CRLF +:+
         "------LioraFormBoundary123--" +:+ CRLF).
Proof. vm_compute. reflexivity. Qed.

(** The name [a NUL b] is looked up as [a]: its line and its part get the
    value of the property [a]. *)
Example headerKVs_nul_example :
  let a_nul_b := String "a" (String NUL "b") in
  let h := [(a_nul_b, VPrimitive "v"); ("a", VPrimitive "other")] in
  NoDup (GetPropertyNames h) ∧
  headerKVs plain_text h = [a_nul_b +:+ ": other"; "a: other"] ∧
  c_str <$> headerKVs plain_text h = ["a"; "a: other"] ∧
  (multipart_parts plain_text h).*2 =
    [bytes ("Content-Disposition: form-data; name=" +:+ DQUOTE +:+ a_nul_b +:+ DQUOTE
            +:+ CRLF +:+ CRLF +:+ "other" +:+ CRLF);
     bytes ("Content-Disposition: form-data; name=" +:+ DQUOTE +:+ "a" +:+ DQUOTE
            +:+ CRLF +:+ CRLF +:+ "other" +:+ CRLF)].
Proof.
  split; [apply (bool_decide_unpack _); vm_compute; exact I|].
  vm_compute. repeat split; reflexivity.
Qed.

(** ** More on the transfer *)

Lemma addHeaderLine_body_url r raw :
  body (addHeaderLine r raw) = body r ∧ url (addHeaderLine r raw) = url r.
Proof.
  destruct (is_status_line raw) eqn:E.
  - by destruct (addHeaderLine_status_line r raw E) as (_ & -> & -> & _).
  - rewrite addHeaderLine_header by done.
    by repeat match goal with |- context [match ?x with _ => _ end] => destruct x end.
Qed.

(** One event of a transfer that is running, not aborted, and stays so. *)
Lemma step_clean w e w1 :
  abort_ w = false →
  perform_step (w, None) e = (w1, None) →
  abort_ w1 = false →
  match e with
  | EvAbort => False
  | EvHeader l => w1 = set_resp w (addHeaderLine (resp_ w) l)
  | EvBody c ok =>
      if streaming_ (req w) && tsfnData_ (req w) then
        (ok = true ∧ ∃ d, w1 = set_downloaded (push_dataCall w c) d) ∨
        (ok = false ∧ c = [] ∧ w1 = w)
      else
        (∃ d, w1 = set_downloaded
                     (set_resp w (set_body (resp_ w) (body (resp_ w) ++ c))) d) ∨
        (c = [] ∧ w1 = w)
  | EvProgress p ok =>
      w1 = if wantProgress_ (req w) && tsfnProg_ (req w) && ok
           then push_progCall w (Agg p) else w
  end.
Proof.
  intros Ha Hstep Ha1. destruct e as [|l|c ok|p ok]; cbn [perform_step] in Hstep.
  - injection Hstep as <-. done.
  - rewrite writeHeader_result in Hstep. by injection Hstep as <- _.
  - assert (∀ w0 : FetchWorker, (0 =? size c) = true → c = []) as Hnil.
    { intros _ H. apply Z.eqb_eq in H. unfold size in H. destruct c; [done|].
      simpl in H. lia. }
    unfold writeBody in Hstep. rewrite Ha in Hstep.
    destruct (streaming_ (req w) && tsfnData_ (req w)).
    + destruct ok.
      * left. split; [done|]. injection Hstep as <- _. by eexists.
      * right. destruct (0 =? size c) eqn:E; [|done].
        injection Hstep as <-. repeat split; try done. by apply (Hnil w).
    + destruct (_ && _) in Hstep.
      { right. destruct (0 =? size c) eqn:E; [|done].
        injection Hstep as <-. split; [by apply (Hnil w)|done]. }
      unfold vector_insert_end in Hstep. destruct (ok && _) in Hstep.
      * left. injection Hstep as <- _. by eexists.
      * right. destruct (0 =? size c) eqn:E; [|done].
        injection Hstep as <-. split; [by apply (Hnil w)|done].
  - unfold onProgress in Hstep. rewrite Ha in Hstep.
    destruct (wantProgress_ (req w)); [|by injection Hstep as <-].
    destruct (tsfnProg_ (req w)); cbn [andb] in *; injection Hstep as <-; done.
Qed.

(** A transfer that ends running and not aborted: every line and chunk
    offered was taken, in order. *)
Lemma clean_run evs :
  ∀ w w', fold_left perform_step evs (w, None) = (w', None) →
          abort_ w' = false →
  (EvAbort ∉ evs) ∧ abort_ w = false ∧ req w' = req w ∧
  headers (resp_ w') = headers (addHeaderLines (resp_ w) (header_lines evs)) ∧
  statusText (resp_ w') = statusText (addHeaderLines (resp_ w) (header_lines evs)) ∧
  url (resp_ w') = url (resp_ w) ∧
  progCalls w' = progCalls w ++
    (if wantProgress_ (req w) && tsfnProg_ (req w)
     then Agg <$> progress_reports evs else []) ∧
  (if streaming_ (req w) && tsfnData_ (req w) then
     body (resp_ w') = body (resp_ w) ∧
     dataCalls w' = dataCalls w ++ delivered_chunks evs ∧
     concat (delivered_chunks evs) = concat (body_chunks evs)
   else
     body (resp_ w') = body (resp_ w) ++ concat (body_chunks evs) ∧
     dataCalls w' = dataCalls w).
Proof.
  induction evs as [|e evs IH]; intros w w' Hrun Hfin.
  { cbn [fold_left] in Hrun. injection Hrun as <-.
    rewrite !app_nil_r. repeat split; try done.
    - apply not_elem_of_nil.
    - destruct (_ && _); by rewrite ?app_nil_r.
    - destruct (_ && _); by rewrite ?app_nil_r. }
  cbn [fold_left] in Hrun.
  assert (abort_ w = false) as Ha.
  { destruct (abort_ w) eqn:E; [|done].
    pose proof (perform_steps_abort (e :: evs) (w, None) (or_introl E)) as H.
    cbn [fold_left] in H. rewrite Hrun in H. cbn in H. congruence. }
  destruct (perform_step (w, None) e) as [w1 st1] eqn:Hstep.
  assert (st1 = None ∧ abort_ w1 = false) as [-> Ha1].
  { destruct st1 as [rc|].
    { exfalso. pose proof (perform_steps_stopped evs w1 rc) as H.
      rewrite Hrun in H. done. }
    split; [done|]. destruct (abort_ w1) eqn:E; [|done].
    pose proof (perform_steps_abort evs (w1, None) (or_introl E)) as H.
    rewrite Hrun in H. cbn in H. congruence. }
  pose proof (perform_step_req (w, None) e) as Hreq. rewrite Hstep in Hreq.
  cbn [fst] in Hreq.
  destruct (IH w1 w' Hrun Hfin) as (Hno & _ & Hr & Hh & Ht & Hu & Hp & Hb).
  rewrite Hreq in Hp, Hb. rewrite Hr, Hreq.
  pose proof (step_clean w e w1 Ha Hstep Ha1) as Hcase.
  split; [|split; [done|split; [done|]]].
  { destruct e; try done; apply not_elem_of_cons; by split. }
  destruct e as [|l|c ok|p ok]; [done| | |].
  - subst w1. cbn [resp_ set_resp progCalls dataCalls] in *.
    destruct (addHeaderLine_body_url (resp_ w) l) as [Eb Eu].
    rewrite Eb, Eu in *. done.
  - cbn [header_lines omap list_omap] in *. fold (header_lines evs).
    cbn [body_chunks delivered_chunks progress_reports omap list_omap].
    fold (body_chunks evs) (delivered_chunks evs) (progress_reports evs).
    destruct (streaming_ (req w) && tsfnData_ (req w)).
    + destruct Hcase as [[-> [d ->]]|(-> & -> & ->)];
        cbn [resp_ set_downloaded push_dataCall progCalls dataCalls concat app] in *;
        destruct Hb as (Hb1 & Hb2 & Hb3); repeat split; try done.
      * by rewrite Hb2, <- app_assoc.
      * by rewrite Hb3.
    + destruct Hcase as [[d ->]|[-> ->]];
        cbn [resp_ set_downloaded set_resp set_body body headers statusText url
             progCalls dataCalls concat app] in *;
        destruct Hb as (Hb1 & Hb2).
      * destruct (headers_after_lines (header_lines evs)
                    (set_body (resp_ w) (body (resp_ w) ++ c)) (resp_ w) eq_refl eq_refl)
          as [E1 E2].
        rewrite E1 in Hh. rewrite E2 in Ht.
        repeat split; try done. by rewrite Hb1, <- app_assoc.
      * done.
  - cbn [header_lines body_chunks delivered_chunks omap list_omap] in *.
    fold (header_lines evs) (body_chunks evs) (delivered_chunks evs).
    assert (progCalls w1 = progCalls w ++
              (if wantProgress_ (req w) && tsfnProg_ (req w) && ok then [Agg p] else [])
            ∧ resp_ w1 = resp_ w ∧ dataCalls w1 = dataCalls w) as (E1 & E2 & E3).
    { subst w1. destruct (_ && _ && _); by rewrite ?app_nil_r. }
    rewrite E1, E2, E3 in *. repeat split; try done.
    rewrite Hp, <- app_assoc. f_equal.
    unfold progress_reports. cbn [omap list_omap].
    destruct (wantProgress_ (req w) && tsfnProg_ (req w)), ok; done.
Qed.

Lemma Execute_success curl_easy_strerror w t w' :
  Execute curl_easy_strerror w t = (w', None) →
  ∃ w1, perform_steps w (events t) = (w1, None) ∧ abort_ w1 = false ∧
        rc_end t = CURLE_OK ∧ w' = set_resp w1 (finishResponse (resp_ w1) t).
Proof.
  unfold Execute, perform. intros H.
  destruct (negb (easy_init_ok t)); [done|].
  destruct (negb (slist_append_ok t) && _); [done|].
  destruct (perform_steps w (events t)) as [w1 st] eqn:E.
  destruct (abort_ w1) eqn:Ha; [done|].
  destruct (negb (default (rc_end t) st =? CURLE_OK)) eqn:Hrc; [done|].
  apply negb_false_iff, Z.eqb_eq in Hrc. injection H as <-.
  exists w1. destruct st as [rc|]; [|done]. exfalso.
  (* a stop leaves a non-zero code *)
  assert (∀ evs s, (∀ rc, s.2 = Some rc → rc ≠ CURLE_OK) →
                   ∀ rc, (fold_left perform_step evs s).2 = Some rc → rc ≠ CURLE_OK)
    as Hnz.
  { clear. induction evs as [|e evs IH]; intros s Hs; [exact Hs|].
    cbn [fold_left]. apply IH. intros rc.
    destruct s as [w [rc0|]]; cbn [perform_step snd].
    - intros [= <-]. by apply Hs.
    - destruct e as [|l|c ok|p ok]; try done.
      + rewrite writeHeader_result. cbn [snd].
        destruct (_ =? _); [done|by intros [= <-]].
      + destruct (writeBody w c ok). cbn [snd]. destruct (_ =? _); [done|].
        by intros [= <-].
      + destruct (wantProgress_ (req w)); [|done].
        destruct (onProgress w p ok). cbn [snd]. destruct (_ =? _); [done|].
        by intros [= <-]. }
  apply (Hnz (events t) (w, None) ltac:(done) rc); [|exact Hrc].
  unfold perform_steps in E. by rewrite E.
Qed.

(** X14. Without a streaming consumer, a resolved response holds in its body
    what the worker's body held before, followed by every chunk the transport
    offered, in arrival order; nothing was queued for a data callback, and the
    abort function was never called. *)
Theorem X14_buffered_body_is_all_chunks
    (curl_easy_strerror : Z → string) (w w' : FetchWorker) (t : Transport) :
  streaming_ (req w) && tsfnData_ (req w) = false →
  Execute curl_easy_strerror w t = (w', None) →
  r_body (OnOK w') = body (resp_ w) ++ concat (body_chunks (events t)) ∧
  dataCalls w' = dataCalls w ∧
  (EvAbort ∉ events t).
Proof.
  intros Hs (w1 & Hrun & Ha & _ & ->)%Execute_success.
  destruct (clean_run (events t) w w1 Hrun Ha) as (Hno & _ & _ & _ & _ & _ & _ & Hb).
  rewrite Hs in Hb. destruct Hb as [Hb Hd]. by repeat split.
Qed.

(** X15. With a streaming consumer nothing is ever retained: whatever the
    events, the response body stays as it was. When [Execute] succeeds, the
    calls queued for the consumer are, in arrival order, the chunks offered,
    and they hold every byte offered: a chunk whose queueing failed can only
    have been empty. *)
Theorem X15_streaming_forwards_all
    (curl_easy_strerror : Z → string) (w w' : FetchWorker) (t : Transport)
    (evs : list event) :
  streaming_ (req w) && tsfnData_ (req w) = true →
  body (resp_ (perform_steps w evs).1) = body (resp_ w) ∧
  (Execute curl_easy_strerror w t = (w', None) →
   dataCalls w' = dataCalls w ++ delivered_chunks (events t) ∧
   concat (delivered_chunks (events t)) = concat (body_chunks (events t)) ∧
   r_body (OnOK w') = body (resp_ w)).
Proof.
  intros Hs. split.
  - unfold perform_steps.
    assert (∀ s, streaming_ (req s.1) && tsfnData_ (req s.1) = true →
                 body (resp_ (fold_left perform_step evs s).1) = body (resp_ s.1)) as H.
    { induction evs as [|e evs IH]; intros s Hst; [done|]. cbn [fold_left].
      rewrite IH by by rewrite perform_step_req. clear IH.
      destruct s as [x [rc|]]; cbn [perform_step fst] in *.
      - by destruct (is_abort e).
      - destruct e as [|l|c ok|p ok]; try done.
        + rewrite writeHeader_result. cbn [fst resp_ set_resp].
          by destruct (addHeaderLine_body_url (resp_ x) l).
        + unfold writeBody. rewrite Hst. by destruct (abort_ x), ok.
        + destruct (wantProgress_ (req x)); [|done].
          pose proof (onProgress_same x p ok) as (_ & _ & E).
          destruct (onProgress x p ok). cbn [fst] in *. by rewrite E. }
    by apply (H (w, None)).
  - intros (w1 & Hrun & Ha & _ & ->)%Execute_success.
    destruct (clean_run (events t) w w1 Hrun Ha) as (_ & _ & _ & _ & _ & _ & _ & Hb).
    rewrite Hs in Hb. destruct Hb as (Hb & Hd & Hc). by repeat split.
Qed.

(** *** The headers object *)

Section FoldSet.
Context {St X : Type}.
Variable look : St → string → option X.
Variable upd : St → string * list string → St.
Variable val : list string → option X.
Variable ok : string → bool.
Hypothesis look_upd : ∀ s kv k, no_nul kv.1 = true →
  look (upd s kv) k =
    if bool_decide (kv.1 = k) && ok k
    then from_option Some (look s k) (val kv.2) else look s k.

Lemma fold_set_other l s k :
  Forall (λ kv : string * list string, no_nul kv.1 = true) l →
  k ∉ l.*1 ∨ ok k = false →
  look (fold_left upd l s) k = look s k.
Proof.
  revert s. induction l as [|kv l IH]; intros s Hn Hk; [done|].
  apply Forall_cons in Hn as [Hkv Hn]. cbn [fold_left].
  rewrite IH, look_upd by (try done; rewrite fmap_cons, not_elem_of_cons in Hk; tauto).
  destruct Hk as [Hk| ->]; [|by rewrite andb_false_r].
  rewrite fmap_cons, not_elem_of_cons in Hk. destruct Hk as [Hk _].
  rewrite bool_decide_eq_false_2; done.
Qed.

Lemma fold_set_own l s k vs :
  Forall (λ kv : string * list string, no_nul kv.1 = true) l →
  NoDup l.*1 → (k, vs) ∈ l → ok k = true →
  look (fold_left upd l s) k = from_option Some (look s k) (val vs).
Proof.
  revert s. induction l as [|kv l IH]; intros s Hn Hnd Hin Hok.
  { by apply elem_of_nil in Hin. }
  apply Forall_cons in Hn as [Hkv Hn].
  rewrite fmap_cons in Hnd. apply NoDup_cons in Hnd as [Hfresh Hnd].
  cbn [fold_left]. apply elem_of_cons in Hin as [<-|Hin].
  - cbn [fst] in Hfresh. rewrite fold_set_other by auto.
    rewrite look_upd by done. cbn [fst snd].
    by rewrite bool_decide_eq_true_2, Hok.
  - rewrite IH by done. rewrite look_upd by done.
    rewrite bool_decide_eq_false_2; [done|].
    intros E. apply Hfresh. rewrite E. apply list_elem_of_fmap. by exists (k, vs).
Qed.

End FoldSet.

Lemma Object_Set_own o name v k :
  no_nul name = true →
  own (Object_Set o name v) !! k =
    if bool_decide (name = k) && negb (String.eqb k "__proto__")
    then Some v else own o !! k.
Proof.
  intros Hn. unfold Object_Set. rewrite (c_str_id name Hn).
  destruct (String.eqb_spec name "__proto__") as [->|Hp]; cbn [own].
  - case_bool_decide as E; [subst k|]; done.
  - case_bool_decide as E.
    + subst k. rewrite lookup_insert_eq.
      by destruct (String.eqb_spec name "__proto__").
    + by rewrite lookup_insert_ne.
Qed.

Lemma Object_Set_proto o name v k :
  no_nul name = true →
  (if String.eqb k "__proto__" then proto (Object_Set o name v) else None) =
    if bool_decide (name = k) && String.eqb k "__proto__"
    then Some v else if String.eqb k "__proto__" then proto o else None.
Proof.
  intros Hn. unfold Object_Set. rewrite (c_str_id name Hn).
  destruct (String.eqb_spec k "__proto__") as [->|Hk]; [|by rewrite andb_false_r].
  rewrite andb_true_r. case_bool_decide as E.
  - subst name. done.
  - by destruct (String.eqb_spec name "__proto__").
Qed.

Lemma Object_Set_never_proto_key o name v :
  own (Object_Set o name v) !! "__proto__" = own o !! "__proto__".
Proof.
  unfold Object_Set. destruct (String.eqb_spec (c_str name) "__proto__"); [done|].
  cbn [own]. by rewrite lookup_insert_ne.
Qed.

Lemma first_Set_lookup first name vs k :
  no_nul name = true →
  match vs with v :: _ => first_Set first name v | [] => first end !! k =
    if bool_decide (name = k) && negb (String.eqb k "__proto__")
    then from_option Some (first !! k) (head vs) else first !! k.
Proof.
  intros Hn. destruct vs as [|v vs]; cbn [head from_option]; [by destruct (_ && _)|].
  unfold first_Set. rewrite (c_str_id name Hn).
  destruct (String.eqb_spec name "__proto__") as [->|Hp].
  - case_bool_decide as E; [subst k|]; done.
  - case_bool_decide as E.
    + subst k. rewrite lookup_insert_eq.
      by destruct (String.eqb_spec name "__proto__").
    + by rewrite lookup_insert_ne.
Qed.

Lemma map_entries_spec {A} (m : gmap string A) :
  NoDup (map_entries m).*1 ∧ ∀ k v, (k, v) ∈ map_entries m ↔ m !! k = Some v.
Proof.
  unfold map_entries. split.
  - rewrite merge_sort_Permutation. apply NoDup_fst_map_to_list.
  - intros k v. rewrite merge_sort_Permutation. apply elem_of_map_to_list.
Qed.

(** X16. A resolved response has the URL the transport reports as effective,
    the transport's response code as status, and [ok] says that this code is
    at least 200 and below 300. Its headers object always has the methods
    get, forEach and entries, whatever the response's header names. When
    those names are plain, every other name is a property exactly when the
    accumulator, fed the header lines offered, in order, has it as a header,
    and its value is then the array of that header's values; a header named
    __first, get, forEach or entries is not readable, and one named
    __proto__ becomes the prototype; [__first] holds the first value of every
    header but that one. *)
Theorem X16_resolved_response
    (curl_easy_strerror : Z → string) (w w' : FetchWorker) (t : Transport) :
  Execute curl_easy_strerror w t = (w', None) →
  let H := headers (addHeaderLines (resp_ w) (header_lines (events t))) in
  let h := r_headers (OnOK w') in
  r_url (OnOK w') = default (url (resp_ w)) (effective_url t) ∧
  r_status (OnOK w') = response_code t ∧
  (r_ok (OnOK w') = true ↔ 200 ≤ response_code t < 300) ∧
  own h !! "get" = Some (HMethod "get") ∧
  own h !! "forEach" = Some (HMethod "forEach") ∧
  own h !! "entries" = Some (HMethod "entries") ∧
  own h !! "__proto__" = None ∧
  ((∀ k, is_Some (H !! k) → plain_name k = true) →
   (∀ k, k ∉ RESERVED_NAMES → own h !! k = HValues <$> H !! k) ∧
   own h !! "__first" = Some (HFirst (omap head (delete "__proto__" H))) ∧
   proto h = HValues <$> H !! "__proto__").
Proof.
  intros (w1 & Hrun & Ha & _ & ->)%Execute_success.
  destruct (clean_run (events t) w w1 Hrun Ha) as (_ & _ & _ & Hh & _ & Hu & _).
  intros H h. subst h. unfold OnOK.
  cbn [r_headers r_url r_status r_ok resp_ set_resp finishResponse headers url status].
  rewrite Hh, Hu. fold H.
  split; [done|]. split; [done|].
  split; [by rewrite andb_true_iff, Z.geb_leb, Z.leb_le, Z.ltb_lt|].
  set (l := map_entries H).
  set (h0 := fold_left (λ h kv, Object_Set h kv.1 (HValues kv.2)) l
               {| own := ∅; proto := None |}).
  set (first := fold_left _ l ∅).
  split; [by rewrite !Object_Set_own by done|].
  split; [by rewrite !Object_Set_own by done|].
  split; [by rewrite !Object_Set_own by done|].
  split.
  { rewrite !Object_Set_never_proto_key. subst h0. generalize l.
    assert (∀ (l0 : list (string * list string)) o, own o !! "__proto__" = None →
              own (fold_left (λ h kv, Object_Set h kv.1 (HValues kv.2)) l0 o)
                !! "__proto__" = None) as Hgen.
    { induction l0 as [|kv l0 IH]; intros o Ho; [done|]. cbn [fold_left].
      apply IH. by rewrite Object_Set_never_proto_key. }
    intros l0. by apply Hgen. }
  intros Hplain.
  destruct (map_entries_spec H) as [Hnd Hin]. fold l in Hnd, Hin.
  assert (Forall (λ kv : string * list string, no_nul kv.1 = true) l) as Hnn.
  { apply Forall_forall. intros [k vs] Hkv. cbn [fst].
    apply plain_name_no_nul, Hplain. apply Hin in Hkv. by rewrite Hkv. }
  pose proof (fold_set_other (λ o k, own o !! k)
                (λ h kv, Object_Set h kv.1 (HValues kv.2))
                (λ vs, Some (HValues vs)) (λ k, negb (String.eqb k "__proto__"))
                (λ s kv k0 Hk0, Object_Set_own s kv.1 (HValues kv.2) k0 Hk0)) as Hoth.
  pose proof (fold_set_own (λ o k, own o !! k)
                (λ h kv, Object_Set h kv.1 (HValues kv.2))
                (λ vs, Some (HValues vs)) (λ k, negb (String.eqb k "__proto__"))
                (λ s kv k0 Hk0, Object_Set_own s kv.1 (HValues kv.2) k0 Hk0)) as Hmine.
  pose proof (fold_set_other (λ (o : gmap string string) k, o !! k)
                (λ first kv, match kv.2 with
                             | v :: _ => first_Set first kv.1 v
                             | [] => first
                             end)
                head (λ k, negb (String.eqb k "__proto__"))
                (λ s kv k0 Hk0, first_Set_lookup s kv.1 kv.2 k0 Hk0)) as Hfoth.
  pose proof (fold_set_own (λ (o : gmap string string) k, o !! k)
                (λ first kv, match kv.2 with
                             | v :: _ => first_Set first kv.1 v
                             | [] => first
                             end)
                head (λ k, negb (String.eqb k "__proto__"))
                (λ s kv k0 Hk0, first_Set_lookup s kv.1 kv.2 k0 Hk0)) as Hfmine.
  pose proof (fold_set_other
                (λ o k, if String.eqb k "__proto__" then proto o else None)
                (λ h kv, Object_Set h kv.1 (HValues kv.2))
                (λ vs, Some (HValues vs)) (λ k, String.eqb k "__proto__")
                (λ s kv k0 Hk0, Object_Set_proto s kv.1 (HValues kv.2) k0 Hk0)) as Hpoth.
  pose proof (fold_set_own
                (λ o k, if String.eqb k "__proto__" then proto o else None)
                (λ h kv, Object_Set h kv.1 (HValues kv.2))
                (λ vs, Some (HValues vs)) (λ k, String.eqb k "__proto__")
                (λ s kv k0 Hk0, Object_Set_proto s kv.1 (HValues kv.2) k0 Hk0)) as Hpmine.
  cbv beta in Hoth, Hmine, Hfoth, Hfmine, Hpoth, Hpmine.
  assert (∀ k, H !! k = None → k ∉ l.*1) as Hmiss.
  { intros k Hk ([k' vs] & -> & Hkv)%list_elem_of_fmap.
    apply Hin in Hkv. cbn [fst] in Hk. congruence. }
  assert (∀ k, own h0 !! k =
               if String.eqb k "__proto__" then None else HValues <$> H !! k) as Hown.
  { intros k. subst h0. destruct (String.eqb k "__proto__") eqn:Ek.
    - rewrite Hoth; [done|done|]. right. by rewrite Ek.
    - destruct (H !! k) as [vs|] eqn:Hk.
      + rewrite (Hmine l _ k vs); try done; [by apply Hin|by rewrite Ek].
      + rewrite Hoth; [done|done|]. left. by apply Hmiss. }
  split; [|split].
  - intros k Hk. unfold RESERVED_NAMES in Hk.
    rewrite !not_elem_of_cons in Hk. destruct Hk as (? & ? & ? & ? & Hp & _).
    rewrite !Object_Set_own by done.
    rewrite !bool_decide_eq_false_2 by done. cbn [andb].
    rewrite Hown. by destruct (String.eqb_spec k "__proto__").
  - rewrite !Object_Set_own by done.
    do 2 f_equal. apply map_eq. intros k. rewrite lookup_omap. subst first.
    destruct (String.eqb k "__proto__") eqn:Ek.
    + apply String.eqb_eq in Ek as ->. rewrite lookup_delete_eq.
      rewrite Hfoth; [done|done|by right].
    + apply String.eqb_neq in Ek. rewrite lookup_delete_ne by done.
      destruct (H !! k) as [vs|] eqn:Hk.
      * rewrite (Hfmine l _ k vs); try done.
        -- cbn [option_bind mbind]. by destruct (head vs).
        -- by apply Hin.
        -- by destruct (String.eqb_spec k "__proto__").
      * rewrite Hfoth; [done|done|]. left. by apply Hmiss.
  - assert (∀ o name v, no_nul name = true → name ≠ "__proto__" →
              proto (Object_Set o name v) = proto o) as Hkeep.
    { intros o name v Hn Hne. unfold Object_Set. rewrite (c_str_id name Hn).
      by destruct (String.eqb_spec name "__proto__"). }
    rewrite !Hkeep by done. subst h0.
    destruct (H !! "__proto__") as [vs|] eqn:Hk.
    + specialize (Hpmine l {| own := ∅; proto := None |} "__proto__" vs Hnn Hnd).
      cbn in Hpmine. apply Hpmine; [by apply Hin|done].
    + specialize (Hpoth l {| own := ∅; proto := None |} "__proto__" Hnn).
      cbn in Hpoth. apply Hpoth. left. by apply Hmiss.
Qed.

(** Headers whose names meet those set by [OnOK]: the header get is hidden
    by the method, the header __proto__ becomes the prototype, and [__first]
    keeps the first value of the others. *)
Example OnOK_reserved_names_example :
  match settle strerror_of (new_worker [])
          {| easy_init_ok := true; slist_append_ok := true;
             events := [EvHeader ("HTTP/1.1 200 OK" +:+ CRLF);
                        EvHeader ("Get: 1" +:+ CRLF); EvHeader ("__proto__: 2" +:+ CRLF);
                        EvHeader ("X-Id: 3" +:+ CRLF); EvHeader ("x-id: 4" +:+ CRLF)];
             rc_end := CURLE_OK; response_code := 200; effective_url := None |} with
  | Resolved r =>
      own (r_headers r) !! "get" = Some (HMethod "get") ∧
      own (r_headers r) !! "x-id" = Some (HValues ["3"; "4"]) ∧
      own (r_headers r) !! "__proto__" = None ∧
      proto (r_headers r) = Some (HValues ["2"]) ∧
      own (r_headers r) !! "__first" = Some (HFirst {["get" := "1"; "x-id" := "3"]})
  | Rejected _ => False
  end.
Proof. vm_compute. repeat split; reflexivity. Qed.

Lemma X14_witness :
  ∃ w', Execute strerror_of (new_worker []) redirect_transfer = (w', None) ∧
        r_body (OnOK w') = bytes "hello".
Proof.
  set (w' := (Execute strerror_of (new_worker []) redirect_transfer).1).
  assert (Execute strerror_of (new_worker []) redirect_transfer = (w', None)) as He
    by (vm_compute; reflexivity).
  exists w'. split; [exact He|].
  destruct (X14_buffered_body_is_all_chunks strerror_of (new_worker []) w'
              redirect_transfer eq_refl He) as (-> & _).
  vm_compute. reflexivity.
Defined.

Lemma X15_witness :
  ∃ w', Execute strerror_of streaming_worker redirect_transfer = (w', None) ∧
        dataCalls w' = [bytes "he"; bytes "llo"] ∧ r_body (OnOK w') = [].
Proof.
  set (w' := (Execute strerror_of streaming_worker redirect_transfer).1).
  assert (Execute strerror_of streaming_worker redirect_transfer = (w', None)) as He
    by (vm_compute; reflexivity).
  exists w'.
  destruct (X15_streaming_forwards_all strerror_of streaming_worker w'
              redirect_transfer [] eq_refl) as (_ & H).
  destruct (H He) as (-> & _ & ->).
  split; [exact He|]. split; vm_compute; reflexivity.
Defined.

Lemma X16_witness :
  ∃ w', Execute strerror_of (new_worker []) redirect_transfer = (w', None) ∧
        own (r_headers (OnOK w')) !! "content-type" = Some (HValues ["text/plain"]) ∧
        own (r_headers (OnOK w')) !! "__first" =
          Some (HFirst {["content-type" := "text/plain"]}) ∧
        proto (r_headers (OnOK w')) = None ∧
        r_url (OnOK w') = "http://example.test/b".
Proof.
  set (w' := (Execute strerror_of (new_worker []) redirect_transfer).1).
  assert (Execute strerror_of (new_worker []) redirect_transfer = (w', None)) as He
    by (vm_compute; reflexivity).
  exists w'. split; [exact He|].
  destruct (X16_resolved_response strerror_of (new_worker []) w' redirect_transfer He)
    as (Hu & _ & _ & _ & _ & _ & _ & Hh).
  assert (map_to_list (headers (addHeaderLines (resp_ (new_worker []))
                                  (header_lines (events redirect_transfer))))
          = [("content-type", ["text/plain"])]) as E by (vm_compute; reflexivity).
  destruct Hh as (Hk & Hf & Hp).
  { intros k [vs Hk]. apply elem_of_map_to_list in Hk. rewrite E in Hk.
    apply list_elem_of_singleton in Hk. injection Hk as -> _. reflexivity. }
  rewrite Hu, Hf, Hp, Hk.
  - vm_compute. repeat split; reflexivity.
  - apply (bool_decide_unpack _). vm_compute. exact I.
Defined.

Lemma writeBody_progCalls w c ok : progCalls (writeBody w c ok).1 = progCalls w.
Proof.
  unfold writeBody.
  repeat match goal with
         | |- context [if ?c then _ else _] => destruct c eqn:?
         | |- context [match ?x with Some _ => _ | None => _ end] => destruct x
         end; done.
Qed.

(** The cast is exact up to 2^53 in magnitude, and beyond that within
    2^10 of any 64-bit counter. *)
Lemma to_double_exact x : - 2 ^ 53 ≤ x ≤ 2 ^ 53 → to_double x = x.
Proof.
  intros H. unfold to_double. cbv zeta.
  destruct (Z.abs x <=? 2 ^ 53) eqn:E; [done|]. apply Z.leb_gt in E. lia.
Qed.

Lemma to_double_near x : - 2 ^ 63 ≤ x < 2 ^ 63 → Z.abs (to_double x - x) ≤ 2 ^ 10.
Proof.
  intros H. unfold to_double. cbv zeta.
  destruct (Z.abs x <=? 2 ^ 53) eqn:E; [rewrite Z.sub_diag; done|].
  apply Z.leb_gt in E.
  set (a := Z.abs x) in *.
  assert (53 ≤ Z.log2 a) as Hlo.
  { change 53 with (Z.log2 (2 ^ 53)). apply Z.log2_le_mono. lia. }
  assert (Z.log2 a < 64) as Hhi by (apply Z.log2_lt_pow2; lia).
  set (e := Z.log2 a - 52) in *.
  assert (1 ≤ e ≤ 11) as He by lia.
  assert (2 ^ e = 2 * 2 ^ (e - 1)) as Hpow.
  { replace e with (Z.succ (e - 1)) at 1 by lia. apply Z.pow_succ_r. lia. }
  assert (0 < 2 ^ (e - 1) ≤ 2 ^ 10) as Hhalf.
  { split; [apply Z.pow_pos_nonneg; lia|apply Z.pow_le_mono_r; lia]. }
  pose proof (Z.div_mod a (2 ^ e) ltac:(lia)) as Hdm.
  pose proof (Z.mod_pos_bound a (2 ^ e) ltac:(lia)) as Hr.
  set (q := a / 2 ^ e) in *. set (r := a mod 2 ^ e) in *.
  set (half := 2 ^ (e - 1)) in *.
  assert (x = Z.sgn x * a) as Hx by (unfold a; lia).
  destruct ((r <? half) || ((r =? half) && Z.even q)) eqn:Hround.
  - assert (r ≤ half) as Hle.
    { apply orb_true_iff in Hround as [H1|H1]; [apply Z.ltb_lt in H1; lia|].
      apply andb_true_iff in H1 as [H1 _]. apply Z.eqb_eq in H1. lia. }
    replace (Z.sgn x * (q * 2 ^ e) - x) with (Z.sgn x * (- r)) by nia.
    rewrite Z.abs_mul. nia.
  - assert (half ≤ r) as Hge.
    { apply orb_false_iff in Hround as [H1 _]. apply Z.ltb_ge in H1. lia. }
    replace (Z.sgn x * ((q + 1) * 2 ^ e) - x) with (Z.sgn x * (2 ^ e - r)) by nia.
    rewrite Z.abs_mul. nia.
Qed.

Example to_double_example :
  to_double 5 = 5 ∧ to_double (2 ^ 53 + 1) = 2 ^ 53 ∧ to_double (2 ^ 53 + 3) = 2 ^ 53 + 4 ∧
  to_double (- (2 ^ 53 + 1)) = - 2 ^ 53 ∧ to_double (2 ^ 63 - 1) = 2 ^ 63.
Proof. vm_compute. repeat split; reflexivity. Qed.

(** X17. Without a progress consumer no progress call is ever queued,
    whatever the events; with one, when [Execute] succeeds, the calls queued
    are the reports offered, in order, each counter cast to double: the
    counter itself when it is at most 2^53 in magnitude, and a number within
    2^10 of it for any 64-bit counter. *)
Theorem X17_progress_reports
    (curl_easy_strerror : Z → string) (w w' : FetchWorker) (t : Transport)
    (evs : list event) :
  (wantProgress_ (req w) = false →
   progCalls (perform_steps w evs).1 = progCalls w) ∧
  (Execute curl_easy_strerror w t = (w', None) →
   progCalls w' = progCalls w ++
     (if wantProgress_ (req w) && tsfnProg_ (req w)
      then Agg <$> progress_reports (events t) else [])) ∧
  (∀ p, Forall (λ x, - 2 ^ 53 ≤ x ≤ 2 ^ 53) [dltotal p; dlnow p; ultotal p; ulnow p] →
        Agg p = p) ∧
  (∀ p, Forall (λ x, - 2 ^ 63 ≤ x < 2 ^ 63) [dltotal p; dlnow p; ultotal p; ulnow p] →
        Forall2 (λ x y, Z.abs (y - x) ≤ 2 ^ 10)
          [dltotal p; dlnow p; ultotal p; ulnow p]
          [dltotal (Agg p); dlnow (Agg p); ultotal (Agg p); ulnow (Agg p)]).
Proof.
  split; [|split; [|split]].
  - intros Hw. unfold perform_steps.
    assert (∀ s, wantProgress_ (req s.1) = false →
                 progCalls (fold_left perform_step evs s).1 = progCalls s.1) as H.
    { induction evs as [|e evs IH]; intros s Hs; [done|]. cbn [fold_left].
      rewrite IH by by rewrite perform_step_req. clear IH.
      destruct s as [x [rc|]]; cbn [perform_step fst] in *.
      - by destruct (is_abort e).
      - destruct e as [|l|c ok|p ok]; try done.
        + pose proof (writeBody_progCalls x c ok) as E.
          by destruct (writeBody x c ok).
        + by rewrite Hs. }
    by apply (H (w, None)).
  - intros (w1 & Hrun & Ha & _ & ->)%Execute_success.
    by destruct (clean_run (events t) w w1 Hrun Ha) as (_ & _ & _ & _ & _ & _ & Hp & _).
  - intros [a b c d] H. cbn [dltotal dlnow ultotal ulnow] in H.
    apply List.Forall_cons_iff in H as [Ha H]. apply List.Forall_cons_iff in H as [Hb H].
    apply List.Forall_cons_iff in H as [Hc H]. apply List.Forall_cons_iff in H as [Hd _].
    unfold Agg. cbn [dltotal dlnow ultotal ulnow].
    by rewrite !to_double_exact.
  - intros [a b c d] H. cbn [dltotal dlnow ultotal ulnow Agg] in *.
    apply List.Forall_cons_iff in H as [Ha H]. apply List.Forall_cons_iff in H as [Hb H].
    apply List.Forall_cons_iff in H as [Hc H]. apply List.Forall_cons_iff in H as [Hd _].
    repeat constructor; by apply to_double_near.
Qed.

Lemma X17_witness :
  ∃ w', Execute strerror_of streaming_worker redirect_transfer = (w', None) ∧
        progCalls w' = [mkProgress 5 2 0 0; mkProgress 5 5 0 0] ∧
        progCalls (perform_steps (new_worker []) (events redirect_transfer)).1 = [] ∧
        Agg (mkProgress (2 ^ 53) (- 2 ^ 53) 0 7) = mkProgress (2 ^ 53) (- 2 ^ 53) 0 7 ∧
        Z.abs (dltotal (Agg (mkProgress (2 ^ 63 - 1) 0 0 0)) - (2 ^ 63 - 1)) ≤ 2 ^ 10.
Proof.
  set (w' := (Execute strerror_of streaming_worker redirect_transfer).1).
  assert (Execute strerror_of streaming_worker redirect_transfer = (w', None)) as He
    by (vm_compute; reflexivity).
  exists w'. split; [exact He|].
  destruct (X17_progress_reports strerror_of streaming_worker w' redirect_transfer [])
    as (_ & H & Hexact & Hnear).
  destruct (X17_progress_reports strerror_of (new_worker []) w' redirect_transfer
              (events redirect_transfer)) as (H0 & _).
  rewrite (H He), (H0 eq_refl).
  split; [vm_compute; reflexivity|]. split; [vm_compute; reflexivity|]. split.
  - apply Hexact. cbn [dltotal dlnow ultotal ulnow]. repeat constructor; lia.
  - assert (Forall (λ x, - 2 ^ 63 ≤ x < 2 ^ 63) [2 ^ 63 - 1; 0; 0; 0]) as Hin
      by (repeat constructor; lia).
    specialize (Hnear (mkProgress (2 ^ 63 - 1) 0 0 0) Hin).
    cbn [dltotal dlnow ultotal ulnow] in Hnear.
    by apply Forall2_cons in Hnear as [Hn _].
Defined.

Lemma frozen_after_abort evs :
  ∀ s, abort_ s.1 = true →
       let w' := (fold_left perform_step evs s).1 in
       body (resp_ w') = body (resp_ s.1) ∧ dataCalls w' = dataCalls s.1 ∧
       progCalls w' = progCalls s.1 ∧ downloaded_ w' = downloaded_ s.1.
Proof.
  induction evs as [|e evs IH]; intros s Hs; [done|]. cbn [fold_left].
  destruct (IH (perform_step s e)) as (-> & -> & -> & ->).
  { apply perform_step_abort. by left. }
  destruct s as [x [rc|]]; cbn [perform_step fst] in *.
  - by destruct (is_abort e).
  - destruct e as [|l|c ok|p ok]; try done.
    + rewrite writeHeader_result. cbn [fst resp_ set_resp dataCalls progCalls downloaded_].
      by destruct (addHeaderLine_body_url (resp_ x) l) as [-> _].
    + by rewrite writeBody_abort.
    + destruct (wantProgress_ (req x)); [|done]. by rewrite onProgress_abort.
Qed.

(** X18. Once the abort function has been called, nothing more is taken for
    the rest of the transfer, whatever follows: the response body, the calls
    queued for the data and the progress consumers and the byte count stay as
    they were when it was called. *)
Theorem X18_nothing_taken_after_abort (w : FetchWorker) (pre post : list event) :
  let w1 := (perform_steps w pre).1 in
  let w2 := (perform_steps w (pre ++ EvAbort :: post)).1 in
  abort_ w2 = true ∧
  body (resp_ w2) = body (resp_ w1) ∧ dataCalls w2 = dataCalls w1 ∧
  progCalls w2 = progCalls w1 ∧ downloaded_ w2 = downloaded_ w1.
Proof.
  intros w1 w2. subst w1 w2. unfold perform_steps.
  rewrite fold_left_app. cbn [fold_left].
  set (s := fold_left perform_step pre (w, None)).
  assert (abort_ (perform_step s EvAbort).1 = true) as Ha.
  { apply perform_step_abort. by right. }
  split; [apply perform_steps_abort; by left|].
  destruct (frozen_after_abort post (perform_step s EvAbort) Ha) as (-> & -> & -> & ->).
  by destruct s as [x [rc|]].
Qed.

Lemma no_abort_run evs :
  ∀ s, abort_ s.1 = false → EvAbort ∉ evs →
       (s.2 = None ∨ s.2 = Some CURLE_WRITE_ERROR) →
       let s' := fold_left perform_step evs s in
       abort_ s'.1 = false ∧ (s'.2 = None ∨ s'.2 = Some CURLE_WRITE_ERROR).
Proof.
  induction evs as [|e evs IH]; intros s Ha Hno Hst; [done|]. cbn [fold_left].
  apply not_elem_of_cons in Hno as [He Hno].
  apply IH; [|done|].
  - destruct s as [x [rc|]]; cbn [perform_step fst snd] in *; [by destruct e|].
    destruct e as [|l|c ok|p ok]; try done.
    + pose proof (writeBody_same x c ok) as (_ & E & _).
      destruct (writeBody x c ok). cbn [fst] in *. congruence.
    + destruct (wantProgress_ (req x)); [|done].
      pose proof (onProgress_same x p ok) as (_ & E & _).
      destruct (onProgress x p ok). cbn [fst] in *. congruence.
  - destruct s as [x [rc|]]; cbn [perform_step fst snd] in *; [done|].
    destruct e as [|l|c ok|p ok]; try done.
    + rewrite writeHeader_result. cbn [snd]. rewrite Z.eqb_refl. by left.
    + destruct (writeBody x c ok). cbn [snd]. destruct (_ =? _); auto.
    + destruct (wantProgress_ (req x)); [|by left].
      unfold onProgress. rewrite Ha. by destruct (_ && _); left.
Qed.

(** X19. When the abort function is never called and the set-up succeeds,
    the perform call returns the transport's own result, or the write error
    when the body sink refused a chunk; the promise is resolved exactly when
    that code is CURLE_OK, and is otherwise rejected with the message made of
    "curl perform error: " and the transport's text for the code. *)
Theorem X19_transport_error
    (curl_easy_strerror : Z → string) (w : FetchWorker) (t : Transport) :
  easy_init_ok t = true →
  slist_append_ok t = true →
  abort_ w = false →
  EvAbort ∉ events t →
  let rc := (perform w (events t) (rc_end t)).2 in
  (rc = rc_end t ∨ rc = CURLE_WRITE_ERROR) ∧
  (rc = CURLE_OK → ∃ r, settle curl_easy_strerror w t = Resolved r) ∧
  (rc ≠ CURLE_OK →
   settle curl_easy_strerror w t =
     Rejected ("curl perform error: " +:+ curl_easy_strerror rc)).
Proof.
  intros Hi Hs Ha Hno rc. subst rc.
  destruct (no_abort_run (events t) (w, None) Ha Hno (or_introl eq_refl)) as [Ha' Hst].
  unfold settle, Execute, perform, perform_steps in *. rewrite Hi, Hs. cbn [negb andb].
  destruct (fold_left perform_step (events t) (w, None)) as [w1 st].
  cbn [fst snd] in *. rewrite Ha'. split; [|split].
  - destruct Hst as [-> | ->]; [by left|by right].
  - intros ->. rewrite Z.eqb_refl. cbn [negb]. by eexists.
  - intros Hrc. apply Z.eqb_neq in Hrc. by rewrite Hrc.
Qed.

Lemma X19_witness :
  settle strerror_of (new_worker [])
    {| easy_init_ok := true; slist_append_ok := true;
       events := [EvHeader ("HTTP/1.1 200 OK" +:+ CRLF); EvBody (bytes "par") true];
       rc_end := 28; response_code := 200; effective_url := None |}
  = Rejected "curl perform error: error".
Proof.
  assert (EvAbort ∉ [EvHeader ("HTTP/1.1 200 OK" +:+ CRLF); EvBody (bytes "par") true])
    as Hno.
  { rewrite !not_elem_of_cons. repeat split; try discriminate. apply not_elem_of_nil. }
  destruct (X19_transport_error strerror_of (new_worker [])
    {| easy_init_ok := true; slist_append_ok := true;
       events := [EvHeader ("HTTP/1.1 200 OK" +:+ CRLF); EvBody (bytes "par") true];
       rc_end := 28; response_code := 200; effective_url := None |}
    eq_refl eq_refl eq_refl Hno) as (_ & _ & H).
  rewrite H; [reflexivity|]. vm_compute. discriminate.
Defined.

Lemma writeBody_accept w c :
  abort_ w = false →
  streaming_ (req w) && tsfnData_ (req w) = false →
  maxBodySize_ (req w) < 0 ∨ size (body (resp_ w)) + size c ≤ maxBodySize_ (req w) →
  size (body (resp_ w)) + size c ≤ vector_max_size →
  ∃ d, writeBody w c true =
       (set_downloaded (set_resp w (set_body (resp_ w) (body (resp_ w) ++ c))) d, size c).
Proof.
  intros Ha Hs Hk Hm. unfold writeBody, vector_insert_end. rewrite Ha, Hs.
  pose proof (size_nonneg (body (resp_ w))). pose proof (size_nonneg c).
  rewrite to_long_long_small by lia.
  destruct ((maxBodySize_ (req w) >=? 0) && _) eqn:E.
  { apply andb_true_iff in E as [E1 E2]. rewrite Z.geb_leb in E1.
    apply Z.leb_le in E1. rewrite Z.gtb_ltb in E2. apply Z.ltb_lt in E2. lia. }
  cbn [andb]. destruct (_ <=? vector_max_size) eqn:E3; [by eexists|].
  apply Z.leb_gt in E3. lia.
Qed.

(** X20. The cap refuses nothing it should not: without a streaming
    consumer and without abort, when no allocation fails and the bytes
    offered, with those already held, stay within [maxBodySize] (or
    [maxBodySize] is negative, which means no cap) and within what a vector
    can hold, no sink stops the transfer and the body ends as what it held
    followed by every chunk. A body of exactly [maxBodySize] bytes is taken. *)
Theorem X20_within_cap_accepted (w : FetchWorker) (evs : list event) :
  streaming_ (req w) && tsfnData_ (req w) = false →
  abort_ w = false →
  EvAbort ∉ evs →
  all_ok evs = true →
  let total := size (body (resp_ w)) + size (concat (body_chunks evs)) in
  maxBodySize_ (req w) < 0 ∨ total ≤ maxBodySize_ (req w) →
  total ≤ vector_max_size →
  ∃ w', perform_steps w evs = (w', None) ∧
        body (resp_ w') = body (resp_ w) ++ concat (body_chunks evs).
Proof.
  unfold perform_steps. revert w.
  induction evs as [|e evs IH]; intros w Hs Ha Hno Hok; cbv zeta; intros Hk Hm.
  { exists w. by rewrite app_nil_r. }
  cbv zeta in IH.
  apply not_elem_of_cons in Hno as [He Hno].
  cbn [all_ok forallb] in Hok. apply andb_true_iff in Hok as [Hok1 Hok].
  cbn [fold_left].
  destruct e as [|l|c ok|p ok]; [done| | |].
  - cbn [perform_step]. rewrite writeHeader_result, Z.eqb_refl.
    cbn [body_chunks omap list_omap] in *. fold (body_chunks evs) in *.
    destruct (addHeaderLine_body_url (resp_ w) l) as [Eb _].
    destruct (IH (set_resp w (addHeaderLine (resp_ w) l))) as (w' & Hrun & Hb);
      cbn [req resp_ set_resp abort_]; rewrite ?Eb; try done.
    exists w'. split; [done|]. rewrite Hb. cbn [resp_ set_resp]. by rewrite Eb.
  - subst ok. cbn [body_chunks omap list_omap concat] in *. fold (body_chunks evs) in *.
    rewrite size_app in Hk, Hm. pose proof (size_nonneg (concat (body_chunks evs))).
    destruct (writeBody_accept w c Ha Hs) as (d & Hw); [lia..|].
    cbn [perform_step]. rewrite Hw, Z.eqb_refl.
    destruct (IH (set_downloaded
                    (set_resp w (set_body (resp_ w) (body (resp_ w) ++ c))) d))
      as (w' & Hrun & Hb);
      cbn [req resp_ set_resp set_downloaded set_body body abort_];
      rewrite ?size_app; try done; try lia.
    exists w'. split; [done|]. rewrite Hb.
    cbn [resp_ set_resp set_downloaded set_body body]. by rewrite <- app_assoc.
  - cbn [perform_step body_chunks omap list_omap] in *. fold (body_chunks evs) in *.
    destruct (wantProgress_ (req w)) eqn:Hw; [|by apply IH].
    unfold onProgress. rewrite Ha, Hw.
    destruct (tsfnProg_ (req w)), ok; cbn [andb Z.eqb];
      first [ by apply IH
            | destruct (IH (push_progCall w (Agg p)) Hs Ha Hno Hok Hk Hm) as (w' & ? & ?);
              by exists w' ].
Qed.

Lemma X20_witness :
  ∃ w', perform_steps capped_worker [EvBody (bytes "ab") true; EvBody (bytes "cd") true]
        = (w', None) ∧
        body (resp_ w') = bytes "abcd".
Proof.
  assert (EvAbort ∉ [EvBody (bytes "ab") true; EvBody (bytes "cd") true]) as Hno.
  { rewrite !not_elem_of_cons. repeat split; try discriminate. apply not_elem_of_nil. }
  destruct (X20_within_cap_accepted capped_worker
              [EvBody (bytes "ab") true; EvBody (bytes "cd") true]
              eq_refl eq_refl Hno eq_refl) as (w' & Hrun & Hb).
  - right. vm_compute. discriminate.
  - vm_compute. discriminate.
  - exists w'. split; [exact Hrun|]. rewrite Hb. reflexivity.
Defined.

(** ** The owning handle *)

Lemma Handle_invariant ops :
  ∀ h cleaned released,
    let '(h', cleaned', released') :=
      fold_left Handle.step ops (h, cleaned, released) in
    cleaned' ++ released' ++ option_list (Handle.p h')
    ≡ₚ (cleaned ++ released ++ option_list (Handle.p h)) ++ Handle.handed ops.
Proof.
  induction ops as [|o ops IH]; intros h cleaned released.
  { cbn. by rewrite app_nil_r. }
  cbn [fold_left Handle.handed flat_map]. fold (Handle.handed ops).
  destruct o as [np|np|]; cbn [Handle.step Handle.reset Handle.put Handle.release].
  - specialize (IH (Handle.mk np)
                   (if Handle.p h is Some _ then Handle.Deleter (Handle.p h) cleaned else cleaned)
                   released).
    destruct (fold_left _ _ _) as [[h' c'] r']. rewrite IH. clear IH.
    destruct h as [[x|]], np as [y|]; cbn; solve_Permutation.
  - specialize (IH (Handle.mk np)
                   (if Handle.p h is Some _ then Handle.Deleter (Handle.p h) cleaned else cleaned)
                   released).
    destruct (fold_left _ _ _) as [[h' c'] r']. rewrite IH. clear IH.
    destruct h as [[x|]], np as [y|]; cbn; solve_Permutation.
  - specialize (IH (Handle.mk None) cleaned (released ++ option_list (Handle.p h))).
    destruct (fold_left _ _ _) as [[h' c'] r']. rewrite IH. clear IH.
    destruct h as [[x|]]; cbn; rewrite ?app_nil_r; solve_Permutation.
Qed.

(** X21. No leak and no double free. When the pointers handed to a handle
    over its life, the one it is built on and those given to [reset] or
    stored through [put], are pairwise distinct, then once it is destroyed
    each of them has been given to the deleter exactly once or given up by
    [release], never both, and nothing else was ever deleted; the handle
    ends null. *)
Theorem X21_handle_no_leak_no_double_free (p0 : option nat) (ops : list Handle.op) :
  NoDup (option_list p0 ++ Handle.handed ops) →
  let '(h, cleaned, released) := Handle.lifetime p0 ops in
  Handle.p h = None ∧
  NoDup (cleaned ++ released) ∧
  cleaned ++ released ≡ₚ option_list p0 ++ Handle.handed ops.
Proof.
  intros Hnd. unfold Handle.lifetime.
  pose proof (Handle_invariant ops (Handle.mk p0) [] []) as H.
  destruct (fold_left Handle.step ops (Handle.mk p0, [], [])) as [[h c] r].
  cbn [Handle.destroy Handle.reset Handle.p app] in *.
  assert ((if Handle.p h is Some _ then Handle.Deleter (Handle.p h) c else c) ++ r
          ≡ₚ option_list p0 ++ Handle.handed ops) as Hp.
  { rewrite <- H. destruct (Handle.p h); cbn; rewrite ?app_nil_r; solve_Permutation. }
  split; [done|]. split; [|exact Hp]. by rewrite Hp.
Qed.

Lemma X21_witness :
  Handle.lifetime (Some 1%nat)
    [Handle.Reset (Some 2%nat); Handle.Release; Handle.Put (Some 3%nat); Handle.Reset None]
  = (Handle.mk None, [1; 3]%nat, [2]%nat).
Proof.
  pose proof (X21_handle_no_leak_no_double_free (Some 1%nat)
    [Handle.Reset (Some 2%nat); Handle.Release; Handle.Put (Some 3%nat); Handle.Reset None])
    as H.
  destruct (Handle.lifetime _ _) as [[h c] r] eqn:E.
  destruct H as (_ & _ & _).
  { apply (bool_decide_unpack _). vm_compute. exact I. }
  vm_compute in E. by rewrite <- E.
Defined.

(** ** The process-wide gates *)

Lemma gate_step_invariant g c :
  (global_inits g ≤ (if g_onceCurl g then 1 else 0))%nat →
  (share_inits g ≤ (if g_onceShare g then 1 else 0))%nat →
  (share_cleanups g + (if g_share g is Some _ then 1 else 0) ≤ share_inits g)%nat →
  let g' := gate_step g c in
  (global_inits g' ≤ (if g_onceCurl g' then 1 else 0))%nat ∧
  (share_inits g' ≤ (if g_onceShare g' then 1 else 0))%nat ∧
  (share_cleanups g' + (if g_share g' is Some _ then 1 else 0) ≤ share_inits g')%nat ∧
  (g_onceCurl g = true → g_onceCurl g' = true) ∧
  (g_onceShare g = true → g_onceShare g' = true) ∧
  (g_onceShare g = true → g_share g = None → g_share g' = None).
Proof.
  intros H1 H2 H3. destruct c as [|created|]; cbn [gate_step];
    unfold ensureCurlGlobal, initShare, cleanupShare.
  - destruct (g_onceCurl g) eqn:E; cbn; rewrite ?E; repeat split; try done; lia.
  - destruct (g_onceShare g) eqn:E; cbn; rewrite ?E; repeat split; try done.
    + lia.
    + destruct (g_share g), created; cbn in *; lia.
  - destruct (g_share g) eqn:E; cbn; rewrite ?E; repeat split; try done; lia.
Qed.

(** X22. Whatever calls are made to the three gates, in whatever order,
    curl_global_init runs at most once and curl_share_init at most once; the
    share is cleaned up at most once and only after it was created; and once
    the share gate has been passed, a share that is null, because its creation
    failed or because it was cleaned up, stays null for ever: no later call
    creates another. *)
Theorem X22_gates_run_once (calls later : list gate_call) :
  let g := fold_left gate_step calls Globals_init in
  (global_inits g ≤ 1)%nat ∧ (share_inits g ≤ 1)%nat ∧
  (share_cleanups g ≤ share_inits g)%nat ∧
  (g_onceShare g = true → g_share g = None →
   g_share (fold_left gate_step later g) = None ∧
   share_inits (fold_left gate_step later g) = share_inits g).
Proof.
  intros g.
  assert (∀ cs g0,
    (global_inits g0 ≤ (if g_onceCurl g0 then 1 else 0))%nat →
    (share_inits g0 ≤ (if g_onceShare g0 then 1 else 0))%nat →
    (share_cleanups g0 + (if g_share g0 is Some _ then 1 else 0) ≤ share_inits g0)%nat →
    let g1 := fold_left gate_step cs g0 in
    (global_inits g1 ≤ (if g_onceCurl g1 then 1 else 0))%nat ∧
    (share_inits g1 ≤ (if g_onceShare g1 then 1 else 0))%nat ∧
    (share_cleanups g1 + (if g_share g1 is Some _ then 1 else 0) ≤ share_inits g1)%nat) as Hinv.
  { induction cs as [|c cs IH]; intros g0 H1 H2 H3; [done|]. cbn [fold_left].
    destruct (gate_step_invariant g0 c H1 H2 H3) as (? & ? & ? & _). by apply IH. }
  destruct (Hinv calls Globals_init) as (H1 & H2 & H3); [cbn; lia..|]. fold g in H1, H2, H3.
  split; [destruct (g_onceCurl g); lia|]. split; [destruct (g_onceShare g); lia|].
  split; [lia|]. intros Ho Hn. clear Hinv H1 H2 H3.
  generalize dependent g. induction later as [|c later IH]; intros g Ho Hn; [done|].
  cbn [fold_left].
  assert (g_onceShare (gate_step g c) = true ∧ g_share (gate_step g c) = None ∧
          share_inits (gate_step g c) = share_inits g) as (Ho' & Hn' & Hi').
  { destruct c as [|created|]; cbn [gate_step];
      unfold ensureCurlGlobal, initShare, cleanupShare; rewrite ?Ho, ?Hn;
      [by destruct (g_onceCurl g)|done|done]. }
  destruct (IH _ Ho' Hn') as [-> ->]. done.
Qed.
